(** * Log-parser management commands of [bot/cogs/parsers.py]

    A shallow embedding of the two administrative commands of the [Parsers]
    cog that carry the presence-tracking logic:

    - [validatelogparser], the full-replay validator, which re-derives the
      connection totals [jq], [j2], [d1], [d2] from a log file, and
    - [resetlogparser], which drops the per-server state kept by the log
      parser.

    Python integers are unbounded and are modelled by [Z]; dictionaries are
    finite maps; exceptions are threaded through a small error monad.  The
    compiled regular expressions of [bot.log_parser.log_patterns] live outside
    this file of the repository, so a pattern is taken as an arbitrary
    function from a line to the captured groups of its first match. *)

From Stdlib Require Import ZArith Ascii String.
From stdpp Require Import gmap strings list fin_maps pretty.

Open Scope string_scope.
Open Scope Z_scope.

(** ** Python values and exceptions *)

Module Py.

(** The exceptions the modelled statements can raise. *)
Inductive exn : Set :=
| ValueError      (* tuple unpacking with the wrong number of values *)
| IndexError      (* [t[0]] on an empty tuple *)
| AttributeError  (* a method call on [None] *)
| KeyError.       (* [d[k]] on a missing key *)

Inductive result (A : Type) : Type :=
| Ok (a : A)
| Raise (e : exn).
Arguments Ok {A} a.
Arguments Raise {A} e.

#[export] Instance result_ret : MRet result := @Ok.
#[export] Instance result_bind : MBind result := λ A B f m,
  match m with
  | Ok a => f a
  | Raise e => Raise e
  end.

(** [d[k] += 1] *)
Definition dict_incr (k : string) (d : gmap string Z) : result (gmap string Z) :=
  match d !! k with
  | Some v => Ok (<[k := v + 1]> d)
  | None => Raise KeyError
  end.

(** [d[k]] *)
Definition dict_get (k : string) (d : gmap string Z) : result Z :=
  match d !! k with
  | Some v => Ok v
  | None => Raise KeyError
  end.

(** A captured group is a string, or [None] when the group did not take
    part in the match. *)
Definition group : Type := option string.

(** [a, b = t] *)
Definition unpack2 (t : list group) : result (group * group) :=
  match t with
  | [a; b] => Ok (a, b)
  | _ => Raise ValueError
  end.

(** [t[0]] *)
Definition index0 (t : list group) : result group :=
  match t with
  | a :: _ => Ok a
  | [] => Raise IndexError
  end.

(** Characters removed by [str.strip()], on 8-bit characters. *)
Definition is_space (c : ascii) : bool :=
  let n := nat_of_ascii c in
  ((9 <=? n)%nat && (n <=? 13)%nat) || ((28 <=? n)%nat && (n <=? 32)%nat).

Fixpoint lstrip (s : string) : string :=
  match s with
  | String c r => if is_space c then lstrip r else s
  | EmptyString => EmptyString
  end.

Fixpoint rstrip (s : string) : string :=
  match s with
  | String c r =>
      let r' := rstrip r in
      if is_space c && String.eqb r' EmptyString then EmptyString
      else String c r'
  | EmptyString => EmptyString
  end.

(** [s.strip()] *)
Definition strip (s : string) : string := rstrip (lstrip s).

Definition lower_char (c : ascii) : ascii :=
  let n := nat_of_ascii c in
  if (65 <=? n)%nat && (n <=? 90)%nat then ascii_of_nat (n + 32) else c.

(** [s.lower()] *)
Fixpoint lower (s : string) : string :=
  match s with
  | String c r => String (lower_char c) (lower r)
  | EmptyString => EmptyString
  end.

(** [g.lower()] on a captured group. *)
Definition group_lower (g : group) : result string :=
  match g with
  | Some s => Ok (lower s)
  | None => Raise AttributeError
  end.

(** [needle in hay] *)
Fixpoint contains (needle hay : string) : bool :=
  String.prefix needle hay ||
  match hay with
  | String _ r => contains needle r
  | EmptyString => false
  end.

(** The values a server document stores under ['_id']. *)
Inductive value : Type :=
| PyNone
| PyStr (s : string)
| PyInt (z : Z).

(** [str(v)] *)
Definition str (v : value) : string :=
  match v with
  | PyNone => "None"
  | PyStr s => s
  | PyInt z => pretty z
  end.

End Py.
Export Py.

(** ** The long-lived bot object *)

Module Bot.

(** [pattern.search(line)]: [None], or [match.groups()] of the first match. *)
Definition pattern : Type := string → option (list group).

(** The entries of [bot.log_parser.log_patterns] the commands look up. *)
Record log_patterns_t : Type := {
  queue_join : pattern;
  player_joined : pattern;
  disconnect_post_join : pattern;
  mission_ready : pattern;
  mission_initial : pattern;
  airdrop_flying : pattern
}.

(** A server document of the guild configuration; [_id] is what
    [server.get('_id')] returns. *)
Record server_config : Type := { _id : value }.

(** [guild_config.get('servers', [])] *)
Record guild_config : Type := { servers : list server_config }.

Section Live.
(** The per-server values held in the parser's dictionaries (positions,
    file states, player tables, statistics) are opaque to the commands. *)
Variable object : Type.

(** An attribute is [None] when [hasattr] fails. *)
Record connection_parser_t : Type := {
  player_states : option (gmap string object);
  server_stats : option (gmap string object)
}.

Record log_parser_t : Type := {
  log_patterns : log_patterns_t;
  last_log_position : option (gmap string object);
  file_states : option (gmap string object);
  connection_parser : option connection_parser_t;
  server_status : option (gmap string object)
}.

(** [log_parser] is [None] when the attribute is missing or falsy;
    [db_manager] answers [get_guild(guild_id)]. *)
Record bot : Type := {
  log_parser : option log_parser_t;
  db_manager : gmap Z guild_config
}.

Definition with_log_parser (lp : log_parser_t) (b : bot) : bot :=
  {| log_parser := Some lp; db_manager := db_manager b |}.
End Live.

Arguments player_states {object} _.
Arguments server_stats {object} _.
Arguments log_patterns {object} _.
Arguments last_log_position {object} _.
Arguments file_states {object} _.
Arguments connection_parser {object} _.
Arguments server_status {object} _.
Arguments log_parser {object} _.
Arguments db_manager {object} _.
Arguments with_log_parser {object} _ _.

End Bot.
Export Bot.

(** ** [resetlogparser] *)

Module Reset.
Section Command.
Variable object : Type.

(** [if hasattr(o, attr): o.attr.pop(server_key, None)] *)
Definition pop (server_key : string) (attr : option (gmap string object))
  : option (gmap string object) :=
  delete server_key <$> attr.

(** The block of five guarded [pop]s, written out once in each branch of
    the command. *)
Definition reset_state (server_key : string) (lp : log_parser_t object)
  : log_parser_t object :=
  {| log_patterns := log_patterns lp;
     last_log_position := pop server_key (last_log_position lp);
     file_states := pop server_key (file_states lp);
     connection_parser :=
       (λ cp, {| player_states := pop server_key (player_states cp);
                 server_stats := pop server_key (server_stats cp) |})
         <$> connection_parser lp;
     server_status := pop server_key (server_status lp) |}.

(** [f"{guild_id}_{server_id}"] *)
Definition server_key (guild_id : Z) (server_id : string) : string :=
  pretty guild_id +:+ "_" +:+ server_id.

(** The [for server in servers] loop of the branch [if server_id:];
    returns [server_found] and the parser after the loop. *)
Fixpoint reset_specific (guild_id : Z) (server_id : string)
    (servers : list server_config) (lp : log_parser_t object)
  : bool * log_parser_t object :=
  match servers with
  | [] => (false, lp)
  | server :: rest =>
      if String.eqb (str (_id server)) server_id
      then (true, reset_state (server_key guild_id server_id) lp)
      else reset_specific guild_id server_id rest lp
  end.

(** The loop of the [else] branch; the accumulator is
    [(reset_count, parser)]. *)
Definition reset_all (guild_id : Z) (servers : list server_config)
    (lp : log_parser_t object) : Z * log_parser_t object :=
  fold_left
    (λ acc server,
       (acc.1 + 1,
        reset_state (server_key guild_id (str (_id server))) acc.2))
    servers (0, lp).

Inductive reply : Type :=
| NotInitialized                       (* "Log parser not initialized" *)
| GuildNotConfigured                   (* "This guild is not configured" *)
| NoServers                            (* "No servers configured for this guild" *)
| ServerNotFound (server_id : string)  (* "Server ID ... not found in this guild" *)
| ResetDone (reset_count : Z).         (* the success embed *)

(** The command: the reply sent to the caller and the bot afterwards.
    [server_id] is the optional command argument. *)
Definition resetlogparser (b : bot object) (guild_id : Z)
    (server_id : option string) : reply * bot object :=
  match log_parser b with
  | None => (NotInitialized, b)
  | Some lp =>
      match db_manager b !! guild_id with
      | None => (GuildNotConfigured, b)
      | Some guild_config =>
          match servers guild_config with
          | [] => (NoServers, b)
          | servers =>
              match server_id with
              | Some (String _ _ as server_id) =>
                  let '(server_found, lp') :=
                    reset_specific guild_id server_id servers lp in
                  if server_found
                  then (ResetDone 1, with_log_parser lp' b)
                  else (ServerNotFound server_id, with_log_parser lp' b)
              | _ =>
                  let '(reset_count, lp') := reset_all guild_id servers lp in
                  (ResetDone reset_count, with_log_parser lp' b)
              end
          end
      end
  end.
End Command.

Arguments pop {object} _ _.
Arguments reset_state {object} _ _.
Arguments reset_specific {object} _ _ _ _.
Arguments reset_all {object} _ _ _.
Arguments resetlogparser {object} _ _ _.

End Reset.


(** ** [validatelogparser] *)

Module Validate.

(** The values stored in the transient player table. *)
Inductive player_state : Set := QUEUED | JOINED | DISCONNECTED.

#[export] Instance player_state_eq_dec : EqDecision player_state.
Proof. solve_decision. Defined.

(** The local variables of the replay loop.  The key of [player_states] is the
    captured player id. *)
Record locals : Type := Locals {
  validation_results : gmap string Z;
  jq : Z;
  j2 : Z;
  d1 : Z;
  d2 : Z;
  player_states : gmap group player_state
}.

(** "Initialize counters for validation" *)
Definition initial : locals :=
  {| validation_results :=
       <["queue_joins" := 0]> (<["player_joins" := 0]>
       (<["disconnects_post_join" := 0]> (<["disconnects_pre_join" := 0]>
       (<["missions_ready" := 0]> (<["missions_initial" := 0]>
       (<["airdrops_flying" := 0]> (<["heli_crashes" := 0]>
       (<["traders" := 0]> (<["total_lines" := 0]> ∅)))))))));
     jq := 0; j2 := 0; d1 := 0; d2 := 0;
     player_states := ∅ |}.

Section Replay.
Variable log_patterns : log_patterns_t.

(** The body of [for line_num, line in enumerate(f, 1)]. *)
Definition step (st : locals) (line : string) : result locals :=
  results ← dict_incr "total_lines" (validation_results st);
  let line := strip line in
  match queue_join log_patterns line with
  | Some groups =>
      '(player_name, player_id) ← unpack2 groups;
      results ← dict_incr "queue_joins" results;
      mret {| validation_results := results;
              jq := jq st + 1; j2 := j2 st; d1 := d1 st; d2 := d2 st;
              player_states := <[player_id := QUEUED]> (player_states st) |}
  | None =>
  match player_joined log_patterns line with
  | Some groups =>
      player_id ← index0 groups;
      results ← dict_incr "player_joins" results;
      mret {| validation_results := results;
              jq := jq st; j2 := j2 st + 1; d1 := d1 st; d2 := d2 st;
              player_states := <[player_id := JOINED]> (player_states st) |}
  | None =>
  match disconnect_post_join log_patterns line with
  | Some groups =>
      player_id ← index0 groups;
      results ← dict_incr "disconnects_post_join" results;
      if bool_decide (player_states st !! player_id = Some JOINED)
      then mret {| validation_results := results;
                   jq := jq st; j2 := j2 st; d1 := d1 st + 1; d2 := d2 st;
                   player_states :=
                     <[player_id := DISCONNECTED]> (player_states st) |}
      else mret {| validation_results := results;
                   jq := jq st; j2 := j2 st; d1 := d1 st; d2 := d2 st + 1;
                   player_states :=
                     <[player_id := DISCONNECTED]> (player_states st) |}
  | None =>
  match mission_ready log_patterns line with
  | Some groups =>
      mission_name ← index0 groups;
      lowered ← group_lower mission_name;
      results ← (if contains "mis" lowered
                 then dict_incr "missions_ready" results
                 else mret results);
      mret {| validation_results := results;
              jq := jq st; j2 := j2 st; d1 := d1 st; d2 := d2 st;
              player_states := player_states st |}
  | None =>
  match mission_initial log_patterns line with
  | Some groups =>
      mission_name ← index0 groups;
      lowered ← group_lower mission_name;
      results ← (if contains "mis" lowered
                 then dict_incr "missions_initial" results
                 else mret results);
      mret {| validation_results := results;
              jq := jq st; j2 := j2 st; d1 := d1 st; d2 := d2 st;
              player_states := player_states st |}
  | None =>
  match airdrop_flying log_patterns line with
  | Some _ =>
      results ← dict_incr "airdrops_flying" results;
      mret {| validation_results := results;
              jq := jq st; j2 := j2 st; d1 := d1 st; d2 := d2 st;
              player_states := player_states st |}
  | None =>
      mret {| validation_results := results;
              jq := jq st; j2 := j2 st; d1 := d1 st; d2 := d2 st;
              player_states := player_states st |}
  end end end end end end.

(** The loop over the lines of the file, from the locals [st]. *)
Fixpoint replay_from (st : locals) (lines : list string) : result locals :=
  match lines with
  | [] => mret st
  | line :: rest => st' ← step st line; replay_from st' rest
  end.

Definition replay (lines : list string) : result locals :=
  replay_from initial lines.

(** What the embed shows: the description, then the fields "Connection
    Events", "Calculated Counts", "Game Events" and "Validation Status". *)
Record report : Type := Report {
  total_lines : Z;
  queue_joins : Z;
  player_joins : Z;
  disconnects_post_join : Z;
  disconnects_pre_join : Z;
  player_count : Z;
  queue_count : Z;
  missions_ready : Z;
  missions_initial : Z;
  airdrops_flying : Z;
  patterns_working : bool;
  player_count_valid : bool;
  queue_count_valid : bool
}.

(** From "Calculate final player and queue counts" to the last field of the
    embed. *)
Definition summarize (st : locals) : result report :=
  let player_count := j2 st - d1 st in
  let queue_count := jq st - j2 st - d2 st in
  let results := validation_results st in
  total ← dict_get "total_lines" results;
  queue_joins ← dict_get "queue_joins" results;
  player_joins ← dict_get "player_joins" results;
  disconnects ← dict_get "disconnects_post_join" results;
  ready ← dict_get "missions_ready" results;
  initial ← dict_get "missions_initial" results;
  airdrops ← dict_get "airdrops_flying" results;
  mret {| total_lines := total;
          queue_joins := queue_joins;
          player_joins := player_joins;
          disconnects_post_join := disconnects;
          disconnects_pre_join := d2 st;
          player_count := player_count;
          queue_count := queue_count;
          missions_ready := ready;
          missions_initial := initial;
          airdrops_flying := airdrops;
          patterns_working := bool_decide (queue_joins > 0);
          player_count_valid := bool_decide (player_count >= 0);
          queue_count_valid := bool_decide (queue_count >= 0) |}.

End Replay.

Inductive reply : Type :=
| NotInitialized          (* "Log parser not initialized" *)
| FileNotFound            (* "Test log file not found" *)
| Embed (r : report)      (* the validation embed *)
| Failed (e : exn).       (* "Failed to validate log parser: ..." *)

(** The command.  [file] is the content of [attached_assets/Deadside.log] as
    the lines its iterator yields, or [None] when the path does not exist. *)
Definition validatelogparser {object : Type} (b : bot object)
    (file : option (list string)) : reply * bot object :=
  match log_parser b with
  | None => (NotInitialized, b)
  | Some lp =>
      match file with
      | None => (FileNotFound, b)
      | Some lines =>
          match st ← replay (Bot.log_patterns lp) lines;
                summarize st with
          | Ok r => (Embed r, b)
          | Raise e => (Failed e, b)
          end
      end
  end.

End Validate.


(** ** The rule set as the specification words it *)

Module PatternLibrary.

(** The named rules, in the order in which the replay loop tries them. *)
Inductive rule : Set :=
| Queue_join
| Player_joined
| Disconnect_post_join
| Mission_ready
| Mission_initial
| Airdrop_flying.

#[export] Instance rule_eq_dec : EqDecision rule.
Proof. solve_decision. Defined.

Definition declaration_order : list rule :=
  [Queue_join; Player_joined; Disconnect_post_join;
   Mission_ready; Mission_initial; Airdrop_flying].

Definition matcher (log_patterns : log_patterns_t) (r : rule) : pattern :=
  match r with
  | Queue_join => queue_join log_patterns
  | Player_joined => player_joined log_patterns
  | Disconnect_post_join => disconnect_post_join log_patterns
  | Mission_ready => mission_ready log_patterns
  | Mission_initial => mission_initial log_patterns
  | Airdrop_flying => airdrop_flying log_patterns
  end.

Definition matches (p : pattern) (line : string) : bool :=
  match p line with
  | Some _ => true
  | None => false
  end.

(** First match wins: the first rule of [declaration_order] that matches. *)
Definition first_match (log_patterns : log_patterns_t) (line : string)
  : option rule :=
  List.find (λ r, matches (matcher log_patterns r) line) declaration_order.

(** The entry of [validation_results] that belongs to a rule. *)
Definition tally (r : rule) : string :=
  match r with
  | Queue_join => "queue_joins"
  | Player_joined => "player_joins"
  | Disconnect_post_join => "disconnects_post_join"
  | Mission_ready => "missions_ready"
  | Mission_initial => "missions_initial"
  | Airdrop_flying => "airdrops_flying"
  end.

(** The tallies after one line if the tally of the first matching rule were
    always incremented. *)
Definition tallies_first_match (log_patterns : log_patterns_t)
    (results : gmap string Z) (line : string) : result (gmap string Z) :=
  results ← dict_incr "total_lines" results;
  match first_match log_patterns (strip line) with
  | Some r => dict_incr (tally r) results
  | None => mret results
  end.

(** The captured mission name contains ["mis"], ignoring case. *)
Definition names_mission (m : option (list group)) : bool :=
  match m with
  | Some (Some mission_name :: _) => contains "mis" (lower mission_name)
  | _ => false
  end.

(** Whether a match of rule [r] on [line] is counted: always, except that the
    two mission rules count only names containing ["mis"]. *)
Definition counted (log_patterns : log_patterns_t) (r : rule) (line : string)
  : bool :=
  match r with
  | Mission_ready => names_mission (mission_ready log_patterns line)
  | Mission_initial => names_mission (mission_initial log_patterns line)
  | _ => true
  end.

(** The tallies after one line with the mission guard taken into account. *)
Definition tallies_guarded (log_patterns : log_patterns_t)
    (results : gmap string Z) (line : string) : result (gmap string Z) :=
  results ← dict_incr "total_lines" results;
  match first_match log_patterns (strip line) with
  | Some r =>
      if counted log_patterns r (strip line)
      then dict_incr (tally r) results
      else mret results
  | None => mret results
  end.

(** Every match has the captures the replay loop takes apart: two groups for
    a queue join, a first group for the other connection rules, and a first
    group that is a string for the mission rules. *)
Definition well_shaped (log_patterns : log_patterns_t) : Prop :=
  ∀ line groups,
    (queue_join log_patterns line = Some groups → length groups = 2%nat) ∧
    (player_joined log_patterns line = Some groups → groups ≠ []) ∧
    (disconnect_post_join log_patterns line = Some groups → groups ≠ []) ∧
    (mission_ready log_patterns line = Some groups →
       ∃ name rest, groups = Some name :: rest) ∧
    (mission_initial log_patterns line = Some groups →
       ∃ name rest, groups = Some name :: rest).

End PatternLibrary.

(** ** Totals and observations used in the statements *)

Module Totals.
Import Validate PatternLibrary.

(** 1 when the first matching rule of the (stripped) line is [r], else 0. *)
Definition hit (log_patterns : log_patterns_t) (r : rule) (line : string) : Z :=
  if decide (first_match log_patterns (strip line) = Some r) then 1 else 0.

(** Number of lines of a file whose first matching rule is [r]. *)
Fixpoint classified (log_patterns : log_patterns_t) (r : rule)
    (lines : list string) : Z :=
  match lines with
  | [] => 0
  | line :: rest => hit log_patterns r line + classified log_patterns r rest
  end.

(** The tallies of [validation_results] agree with the loop variables, and
    every tally the loop or the embed reads is present. *)
Definition consistent (st : locals) : Prop :=
  validation_results st !! "queue_joins" = Some (jq st) ∧
  validation_results st !! "player_joins" = Some (j2 st) ∧
  validation_results st !! "disconnects_post_join" = Some (d1 st + d2 st) ∧
  validation_results st !! "disconnects_pre_join" = Some 0 ∧
  is_Some (validation_results st !! "missions_ready") ∧
  is_Some (validation_results st !! "missions_initial") ∧
  is_Some (validation_results st !! "airdrops_flying") ∧
  is_Some (validation_results st !! "total_lines").

(** What clamping a derived count at zero would report. *)
Definition clamp (count : Z) : Z := Z.max 0 count.

End Totals.

Module Observe.
Import Reset.

(** What the log parser holds for one server key: last log position, file
    state, player states, server statistics and server status.  An entry is
    [None] when the key (or the whole attribute) is absent. *)
Definition entries {object : Type} (lp : log_parser_t object) (key : string)
  : list (option object) :=
  [ last_log_position lp ≫= (.!! key);
    file_states lp ≫= (.!! key);
    (connection_parser lp ≫= player_states) ≫= (.!! key);
    (connection_parser lp ≫= server_stats) ≫= (.!! key);
    server_status lp ≫= (.!! key) ].

Definition cleared {object : Type} : list (option object) :=
  [None; None; None; None; None].

(** [str(server.get('_id'))] for every server of a guild configuration. *)
Definition server_ids (cfg : guild_config) : list string :=
  (λ server, str (_id server)) <$> servers cfg.

(** The server keys a reset request is aimed at: the key of the named server,
    or, when no server is named, the keys of all servers of the guild. *)
Definition targets {object : Type} (b : bot object) (guild_id : Z)
    (server_id : option string) : list string :=
  match server_id with
  | Some (String _ _ as server_id) => [server_key guild_id server_id]
  | _ =>
      match db_manager b !! guild_id with
      | Some cfg => server_key guild_id <$> server_ids cfg
      | None => []
      end
  end.

End Observe.

(** ** Further observations on the replay *)

Module Presence.
Import Validate PatternLibrary.

(** Number of players the transient table holds as [JOINED]. *)
Definition joined (table : gmap group player_state) : Z :=
  Z.of_nat (size (filter (λ entry, entry.2 = JOINED) table)).

(** Number of lines of a file whose first matching rule is [r] and whose
    match is counted (see [counted]). *)
Fixpoint counted_lines (log_patterns : log_patterns_t) (r : rule)
    (lines : list string) : Z :=
  match lines with
  | [] => 0
  | line :: rest =>
      (if decide (first_match log_patterns (strip line) = Some r)
       then (if counted log_patterns r (strip line) then 1 else 0)
       else 0)
      + counted_lines log_patterns r rest
  end.


End Presence.

(** ** Further observations on the reset *)

Module Resets.
Import Reset Observe.

(** The guarded [pop]s for several keys, one key after the other. *)
Definition reset_keys {object : Type} (keys : list string)
    (lp : log_parser_t object) : log_parser_t object :=
  fold_left (λ lp key, reset_state key lp) keys lp.

(** The bot after one reset request per server id of [ids], in that order. *)
Definition reset_each {object : Type} (b : bot object) (guild_id : Z)
    (ids : list string) : bot object :=
  fold_left (λ b server_id, (resetlogparser b guild_id (Some server_id)).2)
    ids b.

(** The five per-server dictionaries of the log parser; a dictionary is
    [None] when the attribute (or the connection parser holding it) is
    absent. *)
Definition stores {object : Type} (lp : log_parser_t object)
  : list (option (gmap string object)) :=
  [ last_log_position lp;
    file_states lp;
    connection_parser lp ≫= player_states;
    connection_parser lp ≫= server_stats;
    server_status lp ].

(** [after] is [before] with some keys removed: an absent attribute stays
    absent, a present one stays present and holds a part of what it held. *)
Definition shrunk {object : Type}
    (before after : option (gmap string object)) : Prop :=
  match before, after with
  | None, None => True
  | Some m, Some m' => m' ⊆ m
  | _, _ => False
  end.

(** The character [c] does not occur in [s]. *)
Fixpoint free_of (c : ascii) (s : string) : Prop :=
  match s with
  | String c' r => c' ≠ c ∧ free_of c r
  | EmptyString => True
  end.

End Resets.

(** ** [test_regex] *)

Module TestRegex.

(** [d.items()] of a dictionary of compiled patterns, in insertion order. *)
Definition items : Type := list (string * pattern).

(** The entries appended to [results]. *)
Inductive entry : Type :=
| Heading (title : string)
| Matched (pattern_name : string) (groups : list group)
| NoMatch (shown : string)
| Unavailable.

(** [line[:n]] *)
Fixpoint take_chars (n : nat) (line : string) : string :=
  match n, line with
  | S n', String c r => String c (take_chars n' r)
  | _, _ => EmptyString
  end.

(** The loop [for pattern_name, pattern in patterns.items()] with its
    [break]. *)
Fixpoint first_hit (patterns : items) (line : string)
  : option (string * list group) :=
  match patterns with
  | [] => None
  | (pattern_name, pattern) :: rest =>
      match pattern line with
      | Some groups => Some (pattern_name, groups)
      | None => first_hit rest line
      end
  end.

(** The body of [for line in test_lines]. *)
Definition test_line (patterns : items) (line : string) : entry :=
  match first_hit patterns line with
  | Some (pattern_name, groups) => Matched pattern_name groups
  | None => NoMatch (take_chars 50 line)
  end.

Definition test_lines : list string :=
  [ "Log file open, 05/17/25 02:01:30";
    "LogSFPS: playersmaxcount=50";
    "LogSFPS: Mission GA_Settle_05_ChernyLog_mis1 will respawn in 221";
    "LogSFPS: Mission GA_Settle_05_ChernyLog_mis1 switched to INITIAL";
    "LogSFPS: Mission GA_Military_02_mis1 will respawn in 1303";
    "LogSFPS: [ASFPSGameMode::NewVehicle_Add] Add vehicle BP_SFPSVehicle_Ural_M6736_Sidecar_C_2147482394 Total 1";
    "LogNet: Join request: /Game/Maps/world_0/World_0?logintype=eos&login=Njshh&Name=Njshh&eosid=|0002e69a65204b669c20238266782d7b";
    "LogBeacon: Beacon Join SFPSOnlineBeaconClient EOS:|0002e69a65204b669c20238266782d7b";
    "LogNet: UChannel::Close: Sending CloseBunch. ChIndex == 0. UniqueId: EOS:|0002e69a65204b669c20238266782d7b" ].

(** The list [results] for the given test lines.  [parsers] holds
    [connection_parser.patterns.items()] and [log_patterns.items()], or is
    [None] when the log parser or its connection parser is missing. *)
Definition run (parsers : option (items * items)) (lines : list string)
  : list entry :=
  match parsers with
  | Some (connection_patterns, log_patterns) =>
      ([Heading "Testing Intelligent Connection Parser:"]
       ++ (test_line connection_patterns <$> lines)
       ++ [Heading "Testing Log Parser Patterns:"]
       ++ (test_line log_patterns <$> lines))%list
  | None => [Unavailable]
  end.

Definition test_regex (parsers : option (items * items)) : list entry :=
  run parsers test_lines.

(** The key under which [validatelogparser] looks a rule up. *)
Definition rule_name (r : PatternLibrary.rule) : string :=
  match r with
  | PatternLibrary.Queue_join => "queue_join"
  | PatternLibrary.Player_joined => "player_joined"
  | PatternLibrary.Disconnect_post_join => "disconnect_post_join"
  | PatternLibrary.Mission_ready => "mission_ready"
  | PatternLibrary.Mission_initial => "mission_initial"
  | PatternLibrary.Airdrop_flying => "airdrop_flying"
  end.

(** The six entries [validatelogparser] uses, in the order its [elif] chain
    tries them. *)
Definition validator_items (log_patterns : log_patterns_t) : items :=
  (λ r, (rule_name r, PatternLibrary.matcher log_patterns r))
    <$> PatternLibrary.declaration_order.

End TestRegex.

(** ** [debug_playercount] *)

Module DebugPlayercount.

(** A server document as this command reads it: [doc_id] is [None] when the
    document has no ['_id'] key, [doc_name] when it has no ['name'] key. *)
Record server_doc : Type := {
  doc_id : option value;
  doc_name : option string
}.

(** [str(server_config.get('_id', 'unknown'))] *)
Definition current_server_id (server_config : server_doc) : string :=
  match doc_id server_config with
  | Some v => str v
  | None => "unknown"
  end.

(** [server_config.get('name', 'Unknown')] *)
Definition server_name (server_config : server_doc) : string :=
  match doc_name server_config with
  | Some name => name
  | None => "Unknown"
  end.

(** The same document as [resetlogparser] reads it, through
    [server.get('_id')]. *)
Definition as_config (server_config : server_doc) : Bot.server_config :=
  {| _id := match doc_id server_config with
            | Some v => v
            | None => PyNone
            end |}.

Section Counting.
Context {state : Type} `{EqDecision state}.

(** [state_counts.get(state, 0)] on a dictionary kept in insertion order. *)
Fixpoint get_count (state_counts : list (state * Z)) (s : state) : Z :=
  match state_counts with
  | [] => 0
  | (s', n) :: rest => if decide (s' = s) then n else get_count rest s
  end.

(** [state_counts[state] = n]: an existing key keeps its place, a new key
    goes to the end. *)
Fixpoint set_count (state_counts : list (state * Z)) (s : state) (n : Z)
  : list (state * Z) :=
  match state_counts with
  | [] => [(s, n)]
  | (s', n') :: rest =>
      if decide (s' = s) then (s, n) :: rest
      else (s', n') :: set_count rest s n
  end.

(** The sum of the values of a dictionary of counts. *)
Definition total (state_counts : list (state * Z)) : Z :=
  foldr Z.add 0 (snd <$> state_counts).

(** The loop [for player_id, player_state in player_states.items()]; an
    item pairs a player id with the [current_state] of its record. *)
Definition count_states (player_states : list (string * state))
  : list (state * Z) :=
  fold_left
    (λ state_counts item,
       set_count state_counts item.2 (get_count state_counts item.2 + 1))
    player_states [].

End Counting.

Section Command.
Context {object state stats : Type} `{EqDecision state}.

(** [connection_parser.get_server_stats(server_key)], a method defined
    outside this file. *)
Variable get_server_stats : string → stats.

(** The items of a per-server player table, each player id with the
    [current_state] of its record. *)
Variable players_of : object → list (string * state).

(** What one field of the embed is built from. *)
Record field : Type := {
  shown_name : string;
  shown_id : string;
  live_counts : stats;
  file_state : option object;
  total_players : Z;
  breakdown : list (state * Z)
}.

(** [o.attr] *)
Definition attribute {A : Type} (attr : option A) : result A :=
  match attr with
  | Some a => Ok a
  | None => Raise AttributeError
  end.

(** The loop [for server_config in servers]. *)
Fixpoint server_fields (lp : log_parser_t object)
    (cp : connection_parser_t object) (guild_id : Z)
    (server_id : option string) (servers : list server_doc)
  : result (list field) :=
  match servers with
  | [] => mret []
  | server_config :: rest =>
      let current_server_id := current_server_id server_config in
      let skip :=
        match server_id with
        | Some (String _ _ as server_id) =>
            negb (String.eqb current_server_id server_id)
        | _ => false
        end in
      if skip then server_fields lp cp guild_id server_id rest
      else
        let server_key := Reset.server_key guild_id current_server_id in
        let stats := get_server_stats server_key in
        file_states ← attribute (Bot.file_states lp);
        tables ← attribute (Bot.player_states cp);
        let player_states :=
          match tables !! server_key with
          | Some table => players_of table
          | None => []
          end in
        fields ← server_fields lp cp guild_id server_id rest;
        mret ({| shown_name := server_name server_config;
                 shown_id := current_server_id;
                 live_counts := stats;
                 file_state := file_states !! server_key;
                 total_players := Z.of_nat (length player_states);
                 breakdown := count_states player_states |} :: fields)
  end.

Inductive reply : Type :=
| NotInitialized          (* "Log parser not initialized" *)
| NoServersConfigured     (* "No servers configured for this guild" *)
| NoServersFound          (* "No servers found" *)
| Embed (fields : list field).

(** The command.  [guild_config] is what [get_guild] returns: [None], or the
    list under ['servers'] (empty when the key is missing).  The command has
    no handler of its own, so an exception leaves it. *)
Definition debug_playercount (b : bot object)
    (guild_config : option (list server_doc)) (guild_id : Z)
    (server_id : option string) : result reply :=
  match log_parser b with
  | None => mret NotInitialized
  | Some lp =>
      match guild_config with
      | None | Some [] => mret NoServersConfigured
      | Some servers =>
          match servers with
          | [] => mret NoServersFound
          | _ =>
              match connection_parser lp with
              | Some cp =>
                  fields ← server_fields lp cp guild_id server_id servers;
                  mret (Embed fields)
              | None => mret (Embed [])
              end
          end
      end
  end.

End Command.

Arguments field : clear implicits.
Arguments reply : clear implicits.

End DebugPlayercount.

(** ** Sample data *)

Module Sample.

(** [s.split(' ')] *)
Fixpoint split_space (s : string) : list string :=
  match s with
  | String c r =>
      let ws := split_space r in
      if Ascii.eqb c " " then EmptyString :: ws
      else match ws with
           | w :: ws' => String c w :: ws'
           | [] => [String c EmptyString]
           end
  | EmptyString => [EmptyString]
  end.

(** A pattern for lines of the form [kw field ... field]: it matches when the
    first word is [kw] and at least [arity] fields follow, and captures the
    first [arity] of them. *)
Definition keyword (kw : string) (arity : nat) : pattern := λ line,
  match split_space line with
  | w :: fields =>
      if String.eqb w kw && (arity <=? length fields)%nat
      then Some (Some <$> take arity fields)
      else None
  | [] => None
  end.

Definition patterns : log_patterns_t :=
  {| queue_join := keyword "queue" 2;
     player_joined := keyword "join" 1;
     disconnect_post_join := keyword "close" 1;
     mission_ready := keyword "ready" 1;
     mission_initial := keyword "initial" 1;
     airdrop_flying := keyword "airdrop" 0 |}.

(** A pattern that matches every line of two words or more and captures the
    second one. *)
Definition second_word : pattern := λ line,
  match split_space line with
  | _ :: w :: _ => Some [Some w]
  | _ => None
  end.

(** As [patterns], with a player-join rule that also matches queue joins. *)
Definition overlapping : log_patterns_t :=
  {| queue_join := keyword "queue" 2;
     player_joined := second_word;
     disconnect_post_join := keyword "close" 1;
     mission_ready := keyword "ready" 1;
     mission_initial := keyword "initial" 1;
     airdrop_flying := keyword "airdrop" 0 |}.

(** Two players queue, one joins, both disconnect. *)
Definition session : list string :=
  ["queue PlayerA 1"; "queue PlayerB 2"; "join 1"; "server tick";
   "close 1"; "close 2"].

(** A join that was never preceded by a queue join. *)
Definition unqueued_join : list string := ["join 1"].

(** One player queues and joins. *)
Definition arrival : list string := ["queue PlayerA 1"; "join 1"].

(** The locals after replaying [lines] with the sample patterns. *)
Definition locals_after (lines : list string) : Validate.locals :=
  match Validate.replay patterns lines with
  | Ok st => st
  | Raise _ => Validate.initial
  end.

(** The locals after the single line ["queue PlayerA 1"] under the
    overlapping rules. *)
Definition queued_once : Validate.locals :=
  match Validate.step overlapping Validate.initial "queue PlayerA 1" with
  | Ok st => st
  | Raise _ => Validate.initial
  end.

(** Two mission-ready lines, one of them with a name lacking ["mis"], a
    mission-initial line, an airdrop and a line no rule matches. *)
Definition outing : list string :=
  ["ready GA_Military_02_Mis1"; "ready Outpost"; "initial GA_Dubovoe_mis3";
   "airdrop"; "server tick"].

(** The embed for [outing]. *)
Definition outing_report : Validate.report :=
  {| Validate.total_lines := 5;
     Validate.queue_joins := 0;
     Validate.player_joins := 0;
     Validate.disconnects_post_join := 0;
     Validate.disconnects_pre_join := 0;
     Validate.player_count := 0;
     Validate.queue_count := 0;
     Validate.missions_ready := 1;
     Validate.missions_initial := 1;
     Validate.airdrops_flying := 1;
     Validate.patterns_working := false;
     Validate.player_count_valid := true;
     Validate.queue_count_valid := true |}.

(** The embed for [session]. *)
Definition session_report : Validate.report :=
  {| Validate.total_lines := 6;
     Validate.queue_joins := 2;
     Validate.player_joins := 1;
     Validate.disconnects_post_join := 2;
     Validate.disconnects_pre_join := 1;
     Validate.player_count := 0;
     Validate.queue_count := 0;
     Validate.missions_ready := 0;
     Validate.missions_initial := 0;
     Validate.airdrops_flying := 0;
     Validate.patterns_working := true;
     Validate.player_count_valid := true;
     Validate.queue_count_valid := true |}.

Definition guild : guild_config :=
  {| servers := [ {| _id := PyStr "alpha" |}; {| _id := PyInt 2 |} ] |}.

Definition store : gmap string Z :=
  <["7_alpha" := 10]> (<["7_2" := 20]> (<["8_alpha" := 30]> ∅)).

Definition parser (log_patterns : log_patterns_t) (m : gmap string Z)
  : log_parser_t Z :=
  {| log_patterns := log_patterns;
     last_log_position := Some m;
     file_states := Some m;
     connection_parser :=
       Some {| Bot.player_states := Some m; server_stats := Some m |};
     server_status := Some m |}.

(** As [patterns], with a queue-join rule that captures a single group. *)
Definition short_capture : log_patterns_t :=
  {| queue_join := keyword "queue" 1;
     player_joined := keyword "join" 1;
     disconnect_post_join := keyword "close" 1;
     mission_ready := keyword "ready" 1;
     mission_initial := keyword "initial" 1;
     airdrop_flying := keyword "airdrop" 0 |}.

(** A bot whose pattern table is [short_capture]. *)
Definition careless : bot Z :=
  {| log_parser := Some (parser short_capture ∅);
     db_manager := ∅ |}.

Definition live : bot Z :=
  {| log_parser := Some (parser patterns store);
     db_manager := <[7 := guild]> ∅ |}.

(** The same bot with no live state recorded yet. *)
Definition fresh : bot Z :=
  {| log_parser := Some (parser patterns ∅);
     db_manager := ∅ |}.

(** The servers of [guild] as [debug_playercount] reads them. *)
Definition docs : list DebugPlayercount.server_doc :=
  [ {| DebugPlayercount.doc_id := Some (PyStr "alpha");
       DebugPlayercount.doc_name := Some "Alpha" |};
    {| DebugPlayercount.doc_id := Some (PyInt 2);
       DebugPlayercount.doc_name := None |} ].

(** The player table behind a stored value: three players for the value 10,
    none otherwise. *)
Definition roster (table : Z) : list (string * string) :=
  if decide (table = 10)
  then [("p1", "JOINED"); ("p2", "QUEUED"); ("p3", "JOINED")]
  else [].

End Sample.

(** * Properties of the replay *)

Module ValidateFacts.
Import Validate PatternLibrary Totals.

(** Case analysis on one run of the loop body: which pattern matched, whether
    the groups could be taken apart and whether the tallies were present. *)
Ltac step_cases H :=
  unfold step, dict_incr, unpack2, index0, group_lower in H; cbn in H;
  repeat match type of H with
         | context [match ?x with _ => _ end] =>
             destruct x eqn:?; cbn in H; try discriminate H
         end;
  injection H as <-; cbn.

Ltac chain_cases :=
  repeat match goal with
         | |- context [match ?p ?l with _ => _ end] =>
             destruct (p l) eqn:?; cbn; try congruence
         end.

Section Replayed.
Variable log_patterns : log_patterns_t.

Lemma first_match_chain line :
  first_match log_patterns line =
  match queue_join log_patterns line with
  | Some _ => Some Queue_join
  | None =>
  match player_joined log_patterns line with
  | Some _ => Some Player_joined
  | None =>
  match disconnect_post_join log_patterns line with
  | Some _ => Some Disconnect_post_join
  | None =>
  match mission_ready log_patterns line with
  | Some _ => Some Mission_ready
  | None =>
  match mission_initial log_patterns line with
  | Some _ => Some Mission_initial
  | None =>
  match airdrop_flying log_patterns line with
  | Some _ => Some Airdrop_flying
  | None => None
  end end end end end end.
Proof.
  unfold first_match, matches; cbn. chain_cases.
Qed.

Lemma first_match_matches line r :
  first_match log_patterns line = Some r →
  is_Some (matcher log_patterns r line).
Proof.
  rewrite first_match_chain. intros H.
  repeat match type of H with
         | context [match ?p ?l with _ => _ end] => destruct (p l) eqn:?
         end; simplify_eq; cbn; rewrite ?Heqo, ?Heqo0, ?Heqo1, ?Heqo2, ?Heqo3, ?Heqo4; eauto.
Qed.

Lemma replay_from_app st l1 l2 :
  replay_from log_patterns st (l1 ++ l2) =
  (st' ← replay_from log_patterns st l1; replay_from log_patterns st' l2).
Proof.
  revert st. induction l1 as [|line l1 IH]; intros st; cbn; [done|].
  destruct (step log_patterns st line); cbn; [apply IH | done].
Qed.

(** One line moves each loop variable by the hit of its rule. *)
Lemma step_counts st line st' :
  step log_patterns st line = Ok st' →
  jq st' = jq st + hit log_patterns Queue_join line ∧
  j2 st' = j2 st + hit log_patterns Player_joined line ∧
  d1 st' + d2 st' =
    d1 st + d2 st + hit log_patterns Disconnect_post_join line.
Proof.
  intros H. unfold hit. rewrite first_match_chain.
  step_cases H; repeat case_decide; simplify_eq; lia.
Qed.

Lemma replay_from_counts lines : ∀ st st',
  replay_from log_patterns st lines = Ok st' →
  jq st' = jq st + classified log_patterns Queue_join lines ∧
  j2 st' = j2 st + classified log_patterns Player_joined lines ∧
  d1 st' + d2 st' =
    d1 st + d2 st + classified log_patterns Disconnect_post_join lines.
Proof.
  induction lines as [|line lines IH]; intros st st' H; cbn in *.
  - injection H as <-. lia.
  - destruct (step log_patterns st line) as [st1|] eqn:Hstep; cbn in H; [|done].
    apply step_counts in Hstep. apply IH in H. lia.
Qed.

Ltac use_cases :=
  repeat match goal with
         | E : ?x = _ |- context [?x] => rewrite E; cbn
         end.

(** The tallies after one line are those of the guarded first-match rule. *)
Lemma step_tallies st line st' :
  step log_patterns st line = Ok st' →
  tallies_guarded log_patterns (validation_results st) line =
    Ok (validation_results st').
Proof.
  intros H. unfold tallies_guarded, dict_incr. rewrite first_match_chain.
  step_cases H; use_cases; reflexivity.
Qed.

(** One line changes no tally other than ["total_lines"] and the tally of the
    first matching rule. *)
Lemma step_frame st line st' k :
  step log_patterns st line = Ok st' →
  k ≠ "total_lines" →
  (∀ r, first_match log_patterns (strip line) = Some r → k ≠ tally r) →
  validation_results st' !! k = validation_results st !! k.
Proof.
  intros H Hk Hr. rewrite first_match_chain in Hr.
  step_cases H;
    repeat match goal with
           | E : ?x = _, F : context [?x] |- _ => rewrite E in F; cbn in F
           end;
    rewrite ?lookup_insert_ne; auto; intros <-; by eapply Hr.
Qed.

Lemma step_total_lines st line st' :
  step log_patterns st line = Ok st' →
  validation_results st' !! "total_lines" =
    Z.succ <$> validation_results st !! "total_lines".
Proof.
  intros H.
  step_cases H; use_cases;
    rewrite ?(lookup_insert_ne _ _ "total_lines"), ?lookup_insert_eq by done;
    reflexivity.
Qed.

Lemma initial_consistent : consistent initial.
Proof. unfold consistent, initial; cbn. repeat split; eauto. Qed.

Lemma step_consistent st line st' :
  consistent st → step log_patterns st line = Ok st' → consistent st'.
Proof.
  unfold consistent. intros (Hq & Hj & Hd & Hp & Hr & Hi & Ha & Ht) H.
  step_cases H;
    repeat match goal with
           | E : <[_ := _]> _ !! _ = Some _ |- _ =>
               rewrite lookup_insert_ne in E by done
           end;
    simplify_eq;
    repeat split;
    rewrite ?lookup_insert_eq, ?lookup_insert_ne by done;
    rewrite ?lookup_insert_eq, ?lookup_insert_ne by done;
    eauto; f_equal; lia.
Qed.

Lemma replay_from_consistent lines : ∀ st st',
  consistent st → replay_from log_patterns st lines = Ok st' → consistent st'.
Proof.
  induction lines as [|line lines IH]; intros st st' Hc H; cbn in H.
  - by injection H as <-.
  - destruct (step log_patterns st line) as [st1|] eqn:Hstep; cbn in H; [|done].
    eauto using step_consistent.
Qed.

Lemma replay_consistent lines st :
  replay log_patterns lines = Ok st → consistent st.
Proof. apply replay_from_consistent, initial_consistent. Qed.

(** With well-shaped matches the loop body raises nothing. *)
Lemma step_progress st line :
  well_shaped log_patterns → consistent st →
  ∃ st', step log_patterns st line = Ok st'.
Proof.
  intros Hw (Hq & Hj & Hd & Hp & [r Hr] & [i Hi] & [a Ha] & [t Ht]).
  unfold step, dict_incr. rewrite Ht. cbn.
  rewrite !lookup_insert_ne by done. rewrite Hq, Hj, Hd, Hr, Hi, Ha.
  destruct (queue_join log_patterns (strip line)) as [g|] eqn:E1.
  { destruct (Hw (strip line) g) as (Hs & _). specialize (Hs E1).
    destruct g as [|? [|? [|]]]; try done. cbn. eauto. }
  destruct (player_joined log_patterns (strip line)) as [g|] eqn:E2.
  { destruct (Hw (strip line) g) as (_ & Hs & _). specialize (Hs E2).
    destruct g; try done. cbn. eauto. }
  destruct (disconnect_post_join log_patterns (strip line)) as [g|] eqn:E3.
  { destruct (Hw (strip line) g) as (_ & _ & Hs & _). specialize (Hs E3).
    destruct g; try done. cbn. case_bool_decide; eauto. }
  destruct (mission_ready log_patterns (strip line)) as [g|] eqn:E4.
  { destruct (Hw (strip line) g) as (_ & _ & _ & Hs & _).
    destruct (Hs E4) as (name & rest & ->). cbn.
    destruct (contains "mis" (lower name)); cbn; eauto. }
  destruct (mission_initial log_patterns (strip line)) as [g|] eqn:E5.
  { destruct (Hw (strip line) g) as (_ & _ & _ & _ & Hs).
    destruct (Hs E5) as (name & rest & ->). cbn.
    destruct (contains "mis" (lower name)); cbn; eauto. }
  destruct (airdrop_flying log_patterns (strip line)); cbn; eauto.
Qed.

Lemma replay_from_progress lines : ∀ st,
  well_shaped log_patterns → consistent st →
  ∃ st', replay_from log_patterns st lines = Ok st'.
Proof.
  induction lines as [|line lines IH]; intros st Hw Hc; cbn.
  - by exists st.
  - destruct (step_progress st line Hw Hc) as [st1 Hstep]. rewrite Hstep. cbn.
    eauto using step_consistent.
Qed.

Lemma replay_progress lines :
  well_shaped log_patterns → ∃ st, replay log_patterns lines = Ok st.
Proof. intros Hw. by apply replay_from_progress, initial_consistent. Qed.

(** The embed can always be built from consistent locals. *)
Lemma summarize_consistent st :
  consistent st →
  ∃ total ready initial airdrops,
    summarize st = Ok
      {| total_lines := total;
         queue_joins := jq st;
         player_joins := j2 st;
         disconnects_post_join := d1 st + d2 st;
         disconnects_pre_join := d2 st;
         player_count := j2 st - d1 st;
         queue_count := jq st - j2 st - d2 st;
         missions_ready := ready;
         missions_initial := initial;
         airdrops_flying := airdrops;
         patterns_working := bool_decide (jq st > 0);
         player_count_valid := bool_decide (j2 st - d1 st >= 0);
         queue_count_valid := bool_decide (jq st - j2 st - d2 st >= 0) |}.
Proof.
  intros (Hq & Hj & Hd & Hp & [r Hr] & [i Hi] & [a Ha] & [t Ht]).
  exists t, r, i, a. unfold summarize, dict_get.
  rewrite Ht, Hq, Hj, Hd, Hr, Hi, Ha. reflexivity.
Qed.

(** Whatever the tallies, the derived counts of a built embed come from the
    loop variables. *)
Lemma summarize_counts st r :
  summarize st = Ok r →
  player_count r = j2 st - d1 st ∧
  queue_count r = jq st - j2 st - d2 st ∧
  disconnects_pre_join r = d2 st ∧
  player_count_valid r = bool_decide (j2 st - d1 st >= 0) ∧
  queue_count_valid r = bool_decide (jq st - j2 st - d2 st >= 0).
Proof.
  unfold summarize, dict_get. intros H.
  repeat match type of H with
         | context [match ?x with _ => _ end] =>
             destruct x eqn:?; cbn in H; try discriminate H
         end.
  injection H as <-. cbn. done.
Qed.

End Replayed.

(** The command answers with an embed exactly when the parser is there, the
    file exists, and replay and summary raise nothing. *)
Lemma validatelogparser_embed {object : Type} (b : bot object) file r :
  (validatelogparser b file).1 = Embed r →
  ∃ lp lines st,
    log_parser b = Some lp ∧ file = Some lines ∧
    replay (log_patterns lp) lines = Ok st ∧ summarize st = Ok r.
Proof.
  unfold validatelogparser. intros H.
  destruct (log_parser b) as [lp|]; [|done].
  destruct file as [lines|]; [|done].
  destruct (replay (log_patterns lp) lines) as [st|] eqn:Hr; cbn in H; [|done].
  destruct (summarize st) as [r'|] eqn:Hs; cbn in H; [|done].
  injection H as <-. eauto 10.
Qed.

(** ** The derived counts *)

(** C1.  For every log file on which the validator answers with its embed,
    the counts it shows are [player_count = j2 - d1] and
    [queue_count = jq - j2 - d2] for the totals [jq], [j2], [d1], [d2] the
    replay ended with, and these totals count the lines of the file classified
    as queue joins, player joins and disconnects. *)
Theorem validator_derived_counts {object : Type} (b : bot object)
    (lines : list string) (r : report) :
  (validatelogparser b (Some lines)).1 = Embed r →
  ∃ lp st,
    log_parser b = Some lp ∧
    replay (log_patterns lp) lines = Ok st ∧
    player_count r = j2 st - d1 st ∧
    queue_count r = jq st - j2 st - d2 st ∧
    jq st = classified (log_patterns lp) Queue_join lines ∧
    j2 st = classified (log_patterns lp) Player_joined lines ∧
    d1 st + d2 st = classified (log_patterns lp) Disconnect_post_join lines.
Proof.
  intros H.
  destruct (validatelogparser_embed _ _ _ H) as (lp & ? & st & Hlp & [= <-] & Hr & Hs).
  exists lp, st.
  destruct (summarize_counts _ _ Hs) as (Hpc & Hqc & _).
  destruct (replay_from_counts _ _ _ _ Hr) as (Hjq & Hj2 & Hd).
  cbn in Hjq, Hj2, Hd. repeat split; try done; lia.
Qed.

Lemma validator_derived_counts_witness :
  (validatelogparser Sample.live (Some Sample.session)).1 =
    Embed Sample.session_report ∧
  ∃ lp st,
    log_parser Sample.live = Some lp ∧
    replay (log_patterns lp) Sample.session = Ok st ∧
    player_count Sample.session_report = j2 st - d1 st ∧
    queue_count Sample.session_report = jq st - j2 st - d2 st ∧
    jq st = classified (log_patterns lp) Queue_join Sample.session ∧
    j2 st = classified (log_patterns lp) Player_joined Sample.session ∧
    d1 st + d2 st =
      classified (log_patterns lp) Disconnect_post_join Sample.session.
Proof.
  split; [vm_compute; reflexivity|].
  apply (validator_derived_counts Sample.live Sample.session
           Sample.session_report).
  vm_compute; reflexivity.
Defined.

(** ** Disconnects *)

(** The loop body on a line whose first matching rule is the disconnect
    rule. *)
Lemma step_disconnect log_patterns st line player_id rest :
  consistent st →
  first_match log_patterns (strip line) = Some Disconnect_post_join →
  disconnect_post_join log_patterns (strip line) = Some (player_id :: rest) →
  ∃ results,
    step log_patterns st line = Ok
      {| validation_results := results;
         jq := jq st;
         j2 := j2 st;
         d1 := if bool_decide (player_states st !! player_id = Some JOINED)
               then d1 st + 1 else d1 st;
         d2 := if bool_decide (player_states st !! player_id = Some JOINED)
               then d2 st else d2 st + 1;
         player_states := <[player_id := DISCONNECTED]> (player_states st) |}.
Proof.
  intros (_ & _ & Hd & _ & _ & _ & _ & [t Ht]) Hfirst Hmatch.
  rewrite first_match_chain in Hfirst.
  unfold step, dict_incr. rewrite Ht. cbn.
  destruct (queue_join log_patterns (strip line)); [done|].
  destruct (player_joined log_patterns (strip line)); [done|].
  rewrite Hmatch. cbn. rewrite lookup_insert_ne, Hd by done.
  case_bool_decide; eauto.
Qed.

(** C2.  When a disconnect event for [player_id] follows the lines [pre] of a
    stream, the replay of the longer stream ends with [player_id] stored as
    [DISCONNECTED]; it has incremented [d1], and not [d2], when the stored
    state was [JOINED], and [d2], and not [d1], for every other prior state,
    among them no record at all, [QUEUED] and [DISCONNECTED]. *)
Theorem disconnect_counts_d1_or_d2 (log_patterns : log_patterns_t)
    (pre : list string) (line : string) (player_id : group)
    (rest : list group) (st : locals) :
  replay log_patterns pre = Ok st →
  first_match log_patterns (strip line) = Some Disconnect_post_join →
  disconnect_post_join log_patterns (strip line) = Some (player_id :: rest) →
  ∃ st',
    replay log_patterns (pre ++ [line]) = Ok st' ∧
    player_states st' !! player_id = Some DISCONNECTED ∧
    (player_states st !! player_id = Some JOINED →
       d1 st' = d1 st + 1 ∧ d2 st' = d2 st) ∧
    (player_states st !! player_id ≠ Some JOINED →
       d2 st' = d2 st + 1 ∧ d1 st' = d1 st) ∧
    (player_states st !! player_id = None ∨
     player_states st !! player_id = Some QUEUED ∨
     player_states st !! player_id = Some DISCONNECTED →
       d2 st' = d2 st + 1 ∧ d1 st' = d1 st).
Proof.
  intros Hpre Hfirst Hmatch.
  destruct (step_disconnect log_patterns st line player_id rest
              (replay_consistent _ _ _ Hpre) Hfirst Hmatch) as [results Hstep].
  eexists. unfold replay. rewrite replay_from_app.
  unfold replay in Hpre. rewrite Hpre. cbn. rewrite Hstep. cbn.
  split; [reflexivity|]. cbn.
  split; [apply lookup_insert_eq|].
  case_bool_decide as Hj.
  - split; [done|]. split; [done|]. intros [E|[E|E]]; congruence.
  - split; [done|]. split; done.
Qed.

Lemma disconnect_counts_d1_or_d2_witness :
  replay Sample.patterns Sample.arrival =
    Ok (Sample.locals_after Sample.arrival) ∧
  first_match Sample.patterns (strip "close 1") =
    Some Disconnect_post_join ∧
  disconnect_post_join Sample.patterns (strip "close 1") =
    Some [Some "1"] ∧
  player_states (Sample.locals_after Sample.arrival) !! Some "1" =
    Some JOINED ∧
  ∃ st',
    replay Sample.patterns (Sample.arrival ++ ["close 1"]) = Ok st' ∧
    player_states st' !! Some "1" = Some DISCONNECTED ∧
    (player_states (Sample.locals_after Sample.arrival) !! Some "1" =
       Some JOINED →
       d1 st' = d1 (Sample.locals_after Sample.arrival) + 1 ∧
       d2 st' = d2 (Sample.locals_after Sample.arrival)) ∧
    (player_states (Sample.locals_after Sample.arrival) !! Some "1" ≠
       Some JOINED →
       d2 st' = d2 (Sample.locals_after Sample.arrival) + 1 ∧
       d1 st' = d1 (Sample.locals_after Sample.arrival)) ∧
    (player_states (Sample.locals_after Sample.arrival) !! Some "1" = None ∨
     player_states (Sample.locals_after Sample.arrival) !! Some "1" =
       Some QUEUED ∨
     player_states (Sample.locals_after Sample.arrival) !! Some "1" =
       Some DISCONNECTED →
       d2 st' = d2 (Sample.locals_after Sample.arrival) + 1 ∧
       d1 st' = d1 (Sample.locals_after Sample.arrival)).
Proof.
  split; [vm_compute; reflexivity|].
  split; [vm_compute; reflexivity|].
  split; [vm_compute; reflexivity|].
  split; [vm_compute; reflexivity|].
  apply (disconnect_counts_d1_or_d2 Sample.patterns Sample.arrival "close 1"
           (Some "1") [] (Sample.locals_after Sample.arrival));
    vm_compute; reflexivity.
Defined.

(** A disconnect for a player the replay has no record of goes to [d2]. *)
Example disconnect_unseen :
  ∃ st, replay Sample.patterns ["close 9"] = Ok st ∧ d1 st = 0 ∧ d2 st = 1.
Proof. eexists. split; [vm_compute; reflexivity|]. split; reflexivity. Qed.

(** ** The tally ['disconnects_pre_join'] *)

(** C8.  For every file on which the validator answers with its embed, the
    tally ['disconnects_pre_join'] of [validation_results] is still 0 after
    the replay, and the pre-join figure of the embed is the loop variable
    [d2]. *)
Theorem pre_join_tally_stays_zero {object : Type} (b : bot object)
    (lines : list string) (r : report) :
  (validatelogparser b (Some lines)).1 = Embed r →
  ∃ lp st,
    log_parser b = Some lp ∧
    replay (log_patterns lp) lines = Ok st ∧
    validation_results st !! "disconnects_pre_join" = Some 0 ∧
    disconnects_pre_join r = d2 st.
Proof.
  intros H.
  destruct (validatelogparser_embed _ _ _ H) as (lp & ? & st & Hlp & [= <-] & Hr & Hs).
  exists lp, st.
  destruct (summarize_counts _ _ Hs) as (_ & _ & Hd2 & _).
  destruct (replay_consistent _ _ _ Hr) as (_ & _ & _ & Hzero & _).
  done.
Qed.

Lemma pre_join_tally_stays_zero_witness :
  (validatelogparser Sample.live (Some Sample.session)).1 =
    Embed Sample.session_report ∧
  disconnects_pre_join Sample.session_report = 1 ∧
  ∃ lp st,
    log_parser Sample.live = Some lp ∧
    replay (log_patterns lp) Sample.session = Ok st ∧
    validation_results st !! "disconnects_pre_join" = Some 0 ∧
    disconnects_pre_join Sample.session_report = d2 st.
Proof.
  split; [vm_compute; reflexivity|].
  split; [reflexivity|].
  apply (pre_join_tally_stays_zero Sample.live Sample.session
           Sample.session_report).
  vm_compute; reflexivity.
Defined.

(** The tally stays at 0 from whatever line on, also outside a full run. *)
Lemma step_pre_join_tally log_patterns st line st' :
  step log_patterns st line = Ok st' →
  validation_results st' !! "disconnects_pre_join" =
    validation_results st !! "disconnects_pre_join".
Proof.
  intros H. apply (step_frame _ _ _ _ _ H); [done|].
  intros r _. destruct r; done.
Qed.

(** ** First match wins *)

(** The tally of the first matching rule after one line. *)
Lemma step_tally_first_match log_patterns st line st' r :
  step log_patterns st line = Ok st' →
  first_match log_patterns (strip line) = Some r →
  validation_results st' !! tally r =
    (if counted log_patterns r (strip line) then Z.succ else id)
      <$> validation_results st !! tally r.
Proof.
  intros H Hr. apply step_tallies in H.
  unfold tallies_guarded, dict_incr in H. rewrite Hr in H.
  destruct (validation_results st !! "total_lines") as [t|]; [|done].
  cbn in H.
  assert (tally r ≠ "total_lines") as Hne by (by destruct r).
  rewrite lookup_insert_ne in H by done.
  destruct (counted log_patterns r (strip line)).
  - destruct (validation_results st !! tally r) as [v|]; [|done].
    injection H as <-. by rewrite lookup_insert_eq.
  - injection H as <-. rewrite lookup_insert_ne by done.
    by destruct (validation_results st !! tally r).
Qed.

(** The claim that the tally of the first matching rule is always
    incremented fails on a mission line whose name lacks ["mis"]. *)
Lemma first_match_tally_not_incremented :
  ∃ st' expected,
    first_match Sample.patterns (strip "ready Outpost") = Some Mission_ready ∧
    step Sample.patterns initial "ready Outpost" = Ok st' ∧
    tallies_first_match Sample.patterns (validation_results initial)
      "ready Outpost" = Ok expected ∧
    expected !! "missions_ready" = Some 1 ∧
    validation_results st' !! "missions_ready" = Some 0.
Proof.
  eexists _, _.
  split; [vm_compute; reflexivity|].
  split; [vm_compute; reflexivity|].
  split; [vm_compute; reflexivity|].
  split; vm_compute; reflexivity.
Qed.

(** C4 (amended).  For every line the loop body gets through, the tallies
    afterwards are those of first-match-wins over the ordered rule set
    (queue join before player join, and so on), where a match of a mission
    rule is counted only if the captured name contains ["mis"]:
    ['total_lines'] is incremented, the tally of the first matching rule is
    incremented when its match is counted, no other tally changes, and a line
    matching no rule changes nothing but ['total_lines']. *)
Theorem tallies_follow_first_match (log_patterns : log_patterns_t)
    (st : locals) (line : string) (st' : locals) :
  step log_patterns st line = Ok st' →
  tallies_guarded log_patterns (validation_results st) line =
    Ok (validation_results st') ∧
  validation_results st' !! "total_lines" =
    Z.succ <$> validation_results st !! "total_lines" ∧
  (∀ r, first_match log_patterns (strip line) = Some r →
     validation_results st' !! tally r =
       (if counted log_patterns r (strip line) then Z.succ else id)
         <$> validation_results st !! tally r) ∧
  (∀ k, k ≠ "total_lines" →
     (∀ r, first_match log_patterns (strip line) = Some r → k ≠ tally r) →
     validation_results st' !! k = validation_results st !! k) ∧
  (first_match log_patterns (strip line) = None →
     ∀ k, k ≠ "total_lines" →
       validation_results st' !! k = validation_results st !! k).
Proof.
  intros H.
  split; [by apply step_tallies|].
  split; [by eapply step_total_lines|].
  split; [intros r; by apply step_tally_first_match|].
  split; [intros k; by apply step_frame|].
  intros Hnone k Hk. apply (step_frame _ _ _ _ _ H Hk).
  intros r Hr. congruence.
Qed.

Lemma tallies_follow_first_match_witness :
  step Sample.overlapping Validate.initial "queue PlayerA 1" =
    Ok (Sample.queued_once) ∧
  is_Some (player_joined Sample.overlapping (strip "queue PlayerA 1")) ∧
  first_match Sample.overlapping (strip "queue PlayerA 1") = Some Queue_join ∧
  validation_results Sample.queued_once !! "queue_joins" = Some 1 ∧
  validation_results Sample.queued_once !! "player_joins" = Some 0 ∧
  (tallies_guarded Sample.overlapping (validation_results initial)
     "queue PlayerA 1" = Ok (validation_results Sample.queued_once) ∧
   validation_results Sample.queued_once !! "total_lines" =
     Z.succ <$> validation_results initial !! "total_lines" ∧
   (∀ r, first_match Sample.overlapping (strip "queue PlayerA 1") = Some r →
      validation_results Sample.queued_once !! tally r =
        (if counted Sample.overlapping r (strip "queue PlayerA 1")
         then Z.succ else id) <$> validation_results initial !! tally r) ∧
   (∀ k, k ≠ "total_lines" →
      (∀ r, first_match Sample.overlapping (strip "queue PlayerA 1") = Some r →
         k ≠ tally r) →
      validation_results Sample.queued_once !! k =
        validation_results initial !! k) ∧
   (first_match Sample.overlapping (strip "queue PlayerA 1") = None →
      ∀ k, k ≠ "total_lines" →
        validation_results Sample.queued_once !! k =
          validation_results initial !! k)).
Proof.
  split; [vm_compute; reflexivity|].
  split; [vm_compute; eauto|].
  split; [vm_compute; reflexivity|].
  split; [vm_compute; reflexivity|].
  split; [vm_compute; reflexivity|].
  apply (tallies_follow_first_match Sample.overlapping initial
           "queue PlayerA 1" Sample.queued_once).
  vm_compute; reflexivity.
Defined.

(** ** The mission guard *)

(** Both mission tallies after one line. *)
Lemma step_mission_tallies log_patterns st line st' :
  step log_patterns st line = Ok st' →
  validation_results st' !! "missions_ready" =
    match first_match log_patterns (strip line) with
    | Some Mission_ready =>
        (if names_mission (mission_ready log_patterns (strip line))
         then Z.succ else id) <$> validation_results st !! "missions_ready"
    | _ => validation_results st !! "missions_ready"
    end ∧
  validation_results st' !! "missions_initial" =
    match first_match log_patterns (strip line) with
    | Some Mission_initial =>
        (if names_mission (mission_initial log_patterns (strip line))
         then Z.succ else id) <$> validation_results st !! "missions_initial"
    | _ => validation_results st !! "missions_initial"
    end.
Proof.
  intros H.
  destruct (first_match log_patterns (strip line)) as [r|] eqn:Hr.
  - pose proof (step_tally_first_match _ _ _ _ _ H Hr) as Ht.
    split; destruct r; cbn in Ht; try exact Ht;
      apply (step_frame _ _ _ _ _ H); try done;
      intros r'; rewrite Hr; intros [= <-]; done.
  - split; apply (step_frame _ _ _ _ _ H); try done;
      intros r'; rewrite Hr; done.
Qed.

Lemma fmap_succ_ne (x : option Z) : is_Some x → Z.succ <$> x ≠ x.
Proof. intros [v ->]. cbn. intros [= E]. lia. Qed.

(** C10.  For every line the loop body gets through: a mission tally changes
    only if the line matches the corresponding mission rule and the captured
    name contains ["mis"] ignoring case; when that rule is the one applied to
    the line and the name contains ["mis"], its tally goes up by one; and a
    line matching a mission rule with a name that lacks ["mis"] leaves both
    mission tallies as they were (for a mission-initial match, as long as the
    line is not also a counted mission-ready match). *)
Theorem mission_tallies_need_mis (log_patterns : log_patterns_t)
    (st : locals) (line : string) (st' : locals) :
  step log_patterns st line = Ok st' →
  (validation_results st' !! "missions_ready" ≠
     validation_results st !! "missions_ready" →
   names_mission (mission_ready log_patterns (strip line)) = true) ∧
  (validation_results st' !! "missions_initial" ≠
     validation_results st !! "missions_initial" →
   names_mission (mission_initial log_patterns (strip line)) = true) ∧
  (first_match log_patterns (strip line) = Some Mission_ready →
   names_mission (mission_ready log_patterns (strip line)) = true →
   validation_results st' !! "missions_ready" =
     Z.succ <$> validation_results st !! "missions_ready" ∧
   validation_results st' !! "missions_initial" =
     validation_results st !! "missions_initial") ∧
  (first_match log_patterns (strip line) = Some Mission_initial →
   names_mission (mission_initial log_patterns (strip line)) = true →
   validation_results st' !! "missions_initial" =
     Z.succ <$> validation_results st !! "missions_initial" ∧
   validation_results st' !! "missions_ready" =
     validation_results st !! "missions_ready") ∧
  (∀ name rest,
     mission_ready log_patterns (strip line) = Some (Some name :: rest) →
     contains "mis" (lower name) = false →
     validation_results st' !! "missions_ready" =
       validation_results st !! "missions_ready" ∧
     validation_results st' !! "missions_initial" =
       validation_results st !! "missions_initial") ∧
  (∀ name rest,
     mission_initial log_patterns (strip line) = Some (Some name :: rest) →
     contains "mis" (lower name) = false →
     names_mission (mission_ready log_patterns (strip line)) = false →
     validation_results st' !! "missions_ready" =
       validation_results st !! "missions_ready" ∧
     validation_results st' !! "missions_initial" =
       validation_results st !! "missions_initial").
Proof.
  intros H. destruct (step_mission_tallies _ _ _ _ H) as [Hready Hinitial].
  repeat apply conj.
  - intros Hne. rewrite Hready in Hne.
    destruct (first_match log_patterns (strip line)) as [[]|]; try done.
    destruct (names_mission (mission_ready log_patterns (strip line))); [done|].
    exfalso. apply Hne. by destruct (validation_results st !! "missions_ready").
  - intros Hne. rewrite Hinitial in Hne.
    destruct (first_match log_patterns (strip line)) as [[]|]; try done.
    destruct (names_mission (mission_initial log_patterns (strip line))); [done|].
    exfalso. apply Hne. by destruct (validation_results st !! "missions_initial").
  - intros Hr Hn. by rewrite Hready, Hinitial, Hr, Hn.
  - intros Hr Hn. by rewrite Hready, Hinitial, Hr, Hn.
  - intros name rest Hm Hc. rewrite Hready, Hinitial.
    rewrite first_match_chain, Hm. cbn. rewrite Hc.
    chain_cases; by rewrite ?option_fmap_id.
  - intros name rest Hm Hc Hn. rewrite Hready, Hinitial.
    rewrite Hn, Hm. unfold names_mission. rewrite Hc.
    destruct (first_match log_patterns (strip line)) as [[]|];
      by rewrite ?option_fmap_id.
Qed.

Lemma mission_tallies_need_mis_witness :
  step Sample.patterns initial "ready Outpost" =
    Ok (Sample.locals_after ["ready Outpost"]) ∧
  mission_ready Sample.patterns (strip "ready Outpost") =
    Some [Some "Outpost"] ∧
  contains "mis" (lower "Outpost") = false ∧
  validation_results (Sample.locals_after ["ready Outpost"])
    !! "missions_ready" = Some 0 ∧
  step Sample.patterns initial "ready GA_Military_02_Mis1" =
    Ok (Sample.locals_after ["ready GA_Military_02_Mis1"]) ∧
  contains "mis" (lower "GA_Military_02_Mis1") = true ∧
  validation_results (Sample.locals_after ["ready GA_Military_02_Mis1"])
    !! "missions_ready" = Some 1.
Proof.
  pose proof (mission_tallies_need_mis Sample.patterns initial
                "ready Outpost" (Sample.locals_after ["ready Outpost"])
                eq_refl) as (_ & _ & _ & _ & Hlacks & _).
  pose proof (mission_tallies_need_mis Sample.patterns initial
                "ready GA_Military_02_Mis1"
                (Sample.locals_after ["ready GA_Military_02_Mis1"])
                eq_refl) as (_ & _ & Hcounted & _).
  split; [reflexivity|].
  split; [reflexivity|].
  split; [reflexivity|].
  split; [exact (proj1 (Hlacks "Outpost" [] eq_refl eq_refl))|].
  split; [reflexivity|].
  split; [reflexivity|].
  exact (proj1 (Hcounted eq_refl eq_refl)).
Defined.

(** ** Negative derived counts *)

Lemma keyword_groups kw arity line groups :
  Sample.keyword kw arity line = Some groups →
  length groups = arity ∧
  (arity ≠ 0%nat → ∃ name rest, groups = Some name :: rest).
Proof.
  unfold Sample.keyword.
  destruct (Sample.split_space line) as [|w fields]; [done|].
  destruct (String.eqb w kw && (arity <=? length fields)%nat) eqn:E; [|done].
  intros [= <-]. apply andb_prop in E as [_ E]. apply Nat.leb_le in E.
  split.
  - rewrite length_fmap, length_take. lia.
  - intros Ha. destruct arity as [|n]; [done|].
    destruct fields as [|f fields]; cbn in *; [lia|]. eauto.
Qed.

Lemma sample_well_shaped : well_shaped Sample.patterns.
Proof.
  intros line groups. cbn.
  repeat split; intros H; apply keyword_groups in H as [Hl Hs];
    try done; try (by apply Hs); by destruct groups.
Qed.

(** The claim that a negative derived count is clamped to zero fails on a
    file holding a single player join: the embed shows a queue count of -1. *)
Lemma negative_queue_count_not_clamped :
  ∃ st r,
    replay Sample.patterns Sample.unqueued_join = Ok st ∧
    (validatelogparser Sample.live (Some Sample.unqueued_join)).1 = Embed r ∧
    jq st - j2 st - d2 st = -1 ∧
    queue_count r = -1 ∧
    queue_count r ≠ clamp (jq st - j2 st - d2 st).
Proof.
  eexists _, _.
  split; [vm_compute; reflexivity|].
  split; [vm_compute; reflexivity|].
  split; [reflexivity|].
  split; [reflexivity|].
  vm_compute. discriminate.
Qed.

(** C3 (amended).  When every match has the captures the loop takes apart,
    the replay of any file completes with an embed; the embed shows the
    derived counts [j2 - d1] and [jq - j2 - d2] as computed, without clamping
    them at zero, and a negative derived count is surfaced by its "Count
    Valid" status being No. *)
Theorem negative_counts_flagged {object : Type} (b : bot object)
    (lp : log_parser_t object) (lines : list string) :
  log_parser b = Some lp →
  well_shaped (log_patterns lp) →
  ∃ st r,
    replay (log_patterns lp) lines = Ok st ∧
    (validatelogparser b (Some lines)).1 = Embed r ∧
    player_count r = j2 st - d1 st ∧
    queue_count r = jq st - j2 st - d2 st ∧
    (player_count_valid r = false ↔ j2 st - d1 st < 0) ∧
    (queue_count_valid r = false ↔ jq st - j2 st - d2 st < 0).
Proof.
  intros Hlp Hw.
  destruct (replay_progress _ lines Hw) as [st Hr].
  destruct (summarize_consistent st (replay_consistent _ _ _ Hr))
    as (t & r & i & a & Hs).
  eexists st, _. split; [done|].
  unfold validatelogparser. rewrite Hlp, Hr. cbn. rewrite Hs. cbn.
  split; [reflexivity|]. cbn.
  split; [done|]. split; [done|].
  split; rewrite bool_decide_eq_false; lia.
Qed.

Lemma negative_counts_flagged_witness :
  log_parser Sample.live = Some (Sample.parser Sample.patterns Sample.store) ∧
  well_shaped Sample.patterns ∧
  ∃ st r,
    replay Sample.patterns Sample.unqueued_join = Ok st ∧
    (validatelogparser Sample.live (Some Sample.unqueued_join)).1 = Embed r ∧
    player_count r = j2 st - d1 st ∧
    queue_count r = jq st - j2 st - d2 st ∧
    (player_count_valid r = false ↔ j2 st - d1 st < 0) ∧
    (queue_count_valid r = false ↔ jq st - j2 st - d2 st < 0).
Proof.
  split; [reflexivity|].
  split; [exact sample_well_shaped|].
  exact (negative_counts_flagged Sample.live
           (Sample.parser Sample.patterns Sample.store) Sample.unqueued_join
           eq_refl sample_well_shaped).
Defined.

(** ** Independence of the live state *)

(** C5.  The validator's answer depends on the bot only through the presence
    of the log parser and its pattern table: two runs over the same file,
    from bots that agree on these and differ arbitrarily in the stored
    positions, file states, player states, statistics and status, give the
    same answer, and each run leaves its bot as it found it.  The replay
    starts from [initial] locals in every call. *)
Theorem validator_ignores_live_state {object : Type} (b1 b2 : bot object)
    (file : option (list string)) :
  log_patterns <$> log_parser b1 = log_patterns <$> log_parser b2 →
  (validatelogparser b1 file).1 = (validatelogparser b2 file).1 ∧
  (validatelogparser b1 file).2 = b1 ∧
  (validatelogparser b2 file).2 = b2 ∧
  (∀ lp lines,
     log_parser b1 = Some lp → file = Some lines →
     (validatelogparser b1 file).1 =
       match st ← replay_from (log_patterns lp) initial lines; summarize st with
       | Ok r => Embed r
       | Raise e => Failed e
       end).
Proof.
  intros Hp. unfold validatelogparser.
  destruct (log_parser b1) as [lp1|], (log_parser b2) as [lp2|];
    cbn in Hp; try done.
  injection Hp as Hp. rewrite <- Hp.
  destruct file as [lines|]; cbn.
  - unfold replay.
    destruct (replay_from (log_patterns lp1) initial lines ≫= _)
      as [r|e] eqn:E; cbn; repeat split;
      intros lp lines' [= <-] [= <-]; by rewrite E.
  - repeat split. intros; done.
Qed.

Lemma validator_ignores_live_state_witness :
  log_patterns <$> log_parser Sample.live =
    log_patterns <$> log_parser Sample.fresh ∧
  Sample.live ≠ Sample.fresh ∧
  (validatelogparser Sample.live (Some Sample.session)).1 =
    (validatelogparser Sample.fresh (Some Sample.session)).1.
Proof.
  split; [reflexivity|].
  split; [intros E; apply (f_equal (λ b, db_manager b !! 7)) in E;
          vm_compute in E; discriminate E|].
  exact (proj1 (validator_ignores_live_state Sample.live Sample.fresh
                  (Some Sample.session) eq_refl)).
Defined.

End ValidateFacts.

(** * Properties of the reset *)

Module ResetFacts.
Import Reset Observe.

Section Resetting.
Context {object : Type}.
Implicit Types (lp : log_parser_t object) (b : bot object).

(** One block of [pop]s clears the entries of its key and no others. *)
Lemma entries_reset_state lp key k :
  entries (reset_state key lp) k =
    if decide (key = k) then cleared else entries lp k.
Proof.
  unfold entries, reset_state, pop. cbn.
  destruct (last_log_position lp), (file_states lp), (server_status lp),
    (connection_parser lp) as [[[?|] [?|]]|];
    cbn; rewrite ?lookup_delete; by case_decide.
Qed.

Lemma reset_specific_spec guild_id server_id servers lp :
  reset_specific guild_id server_id servers lp =
    if decide (server_id ∈ (λ server, str (_id server)) <$> servers)
    then (true, reset_state (server_key guild_id server_id) lp)
    else (false, lp).
Proof.
  induction servers as [|server rest IH]; cbn.
  - by rewrite decide_False by apply not_elem_of_nil.
  - destruct (String.eqb_spec (str (_id server)) server_id) as [<-|Hne].
    + by rewrite decide_True by apply list_elem_of_here.
    + rewrite IH. case_decide as Hin.
      * by rewrite decide_True by by apply list_elem_of_further.
      * rewrite decide_False; [done|].
        intros [E|E]%elem_of_cons; [by apply Hne|by apply Hin].
Qed.

Lemma reset_loop_spec guild_id servers : ∀ (n : Z) lp,
  let after :=
    fold_left
      (λ acc server,
         (acc.1 + 1,
          reset_state (server_key guild_id (str (_id server))) acc.2))
      servers (n, lp) in
  after.1 = n + Z.of_nat (length servers) ∧
  log_patterns after.2 = log_patterns lp ∧
  ∀ k, entries after.2 k =
         if decide (k ∈ server_key guild_id <$>
                          ((λ server, str (_id server)) <$> servers))
         then cleared else entries lp k.
Proof.
  induction servers as [|server rest IH]; intros n lp; cbn.
  - split; [lia|]. split; [done|]. intros k.
    by rewrite decide_False by apply not_elem_of_nil.
  - destruct (IH (n + 1)
                (reset_state (server_key guild_id (str (_id server))) lp))
      as (Hn & Hp & He).
    cbn in Hn, Hp, He. split; [lia|]. split; [done|]. intros k.
    rewrite He, entries_reset_state.
    repeat case_decide; try done; subst.
    + exfalso. match goal with H : _ ∉ _ :: _ |- _ => apply H end.
      by apply list_elem_of_further.
    + exfalso. match goal with H : _ ∉ _ :: _ |- _ => apply H end.
      apply list_elem_of_here.
    + match goal with H : _ ∈ _ :: _ |- _ => apply elem_of_cons in H as [?|?] end;
        done.
Qed.

Lemma with_log_parser_same lp b :
  log_parser b = Some lp → with_log_parser lp b = b.
Proof. destruct b; cbn. by intros ->. Qed.

(** C6.  With the log parser running and the guild configured with at
    least one server: a reset that names a configured server, and a reset
    that names none, both succeed and leave no last log position, file state,
    player states, server statistics or server status under any key they are
    aimed at -- the key of the named server, respectively the keys of all
    servers of the guild.  The five entries of a key go in the same run of
    the command. *)
Theorem reset_clears_targets b (guild_id : Z) (server_id : option string)
    lp (cfg : guild_config) :
  log_parser b = Some lp →
  db_manager b !! guild_id = Some cfg →
  servers cfg ≠ [] →
  (∀ c named, server_id = Some (String c named) →
     String c named ∈ server_ids cfg) →
  ∃ lp',
    resetlogparser b guild_id server_id =
      (ResetDone (Z.of_nat (length (targets b guild_id server_id))),
       with_log_parser lp' b) ∧
    ∀ k, k ∈ targets b guild_id server_id → entries lp' k = cleared.
Proof.
  intros Hlp Hcfg Hs Hnamed.
  unfold resetlogparser, targets. rewrite Hlp, Hcfg.
  destruct (servers cfg) as [|s0 rest] eqn:Hservers; [done|].
  assert (∃ lp',
    (let '(reset_count, lp') := reset_all guild_id (s0 :: rest) lp in
     (ResetDone reset_count, with_log_parser lp' b)) =
    (ResetDone (Z.of_nat (length (server_key guild_id <$> server_ids cfg))),
     with_log_parser lp' b) ∧
    ∀ k, k ∈ server_key guild_id <$> server_ids cfg → entries lp' k = cleared)
    as Hall.
  { unfold reset_all, server_ids. rewrite Hservers.
    destruct (reset_loop_spec guild_id (s0 :: rest) 0 lp) as (Hn & _ & He).
    destruct (fold_left _ (s0 :: rest) (0, lp)) as [n lp'].
    cbn [fst snd] in Hn, He. exists lp'. split.
    - rewrite !length_fmap. by rewrite Hn.
    - intros k Hk. rewrite He. by rewrite decide_True. }
  destruct server_id as [[|c named]|]; [exact Hall| |exact Hall].
  specialize (Hnamed c named eq_refl). unfold server_ids in Hnamed.
  rewrite Hservers in Hnamed.
  rewrite reset_specific_spec, decide_True by done.
  eexists. split; [reflexivity|].
  intros k ->%list_elem_of_singleton.
  rewrite entries_reset_state. by rewrite decide_True.
Qed.

(** C7.  With the log parser running and the guild configured with at least
    one server, a reset that names a server that is not among them answers
    "not found" and leaves the whole bot as it was: no position, file state,
    player state, statistics or status of any server key is touched. *)
Theorem reset_unknown_server b (guild_id : Z) (server_id : string)
    lp (cfg : guild_config) :
  log_parser b = Some lp →
  db_manager b !! guild_id = Some cfg →
  servers cfg ≠ [] →
  server_id ≠ "" →
  server_id ∉ server_ids cfg →
  resetlogparser b guild_id (Some server_id) = (ServerNotFound server_id, b).
Proof.
  intros Hlp Hcfg Hs Hne Hin.
  unfold resetlogparser. rewrite Hlp, Hcfg.
  destruct (servers cfg) as [|s0 rest] eqn:Hservers; [done|].
  destruct server_id as [|c named]; [done|].
  unfold server_ids in Hin. rewrite Hservers in Hin.
  rewrite reset_specific_spec, decide_False by done.
  by rewrite with_log_parser_same.
Qed.

(** C9.  Whatever the request, a reset leaves the guild configurations and
    the pattern table alone, and for every server key it is not aimed at --
    every key but the one of the named server, respectively every key that
    belongs to no server of the guild -- the last log position, file state,
    player states, server statistics and server status are what they were. *)
Theorem reset_frame b (guild_id : Z) (server_id : option string) :
  db_manager (resetlogparser b guild_id server_id).2 = db_manager b ∧
  match log_parser b with
  | None => log_parser (resetlogparser b guild_id server_id).2 = None
  | Some lp =>
      ∃ lp',
        log_parser (resetlogparser b guild_id server_id).2 = Some lp' ∧
        log_patterns lp' = log_patterns lp ∧
        ∀ k, k ∉ targets b guild_id server_id → entries lp' k = entries lp k
  end.
Proof.
  unfold resetlogparser, targets.
  destruct (log_parser b) as [lp|] eqn:Hlp; [|done].
  destruct (db_manager b !! guild_id) as [cfg|]; [|by eauto].
  destruct (servers cfg) as [|s0 rest] eqn:Hservers; [by eauto|].
  assert (
    db_manager
      (let '(reset_count, lp') := reset_all guild_id (s0 :: rest) lp in
       (ResetDone reset_count, with_log_parser lp' b)).2 = db_manager b ∧
    ∃ lp',
      log_parser
        (let '(reset_count, lp') := reset_all guild_id (s0 :: rest) lp in
         (ResetDone reset_count, with_log_parser lp' b)).2 = Some lp' ∧
      log_patterns lp' = log_patterns lp ∧
      ∀ k, k ∉ server_key guild_id <$> server_ids cfg →
           entries lp' k = entries lp k) as Hall.
  { unfold reset_all, server_ids. rewrite Hservers.
    destruct (reset_loop_spec guild_id (s0 :: rest) 0 lp) as (_ & Hp & He).
    destruct (fold_left _ (s0 :: rest) (0, lp)) as [n lp'].
    cbn [fst snd] in Hp, He. split; [done|]. exists lp'.
    split; [done|]. split; [done|].
    intros k Hk. rewrite He. by rewrite decide_False. }
  destruct server_id as [[|c named]|]; [exact Hall| |exact Hall].
  rewrite reset_specific_spec. case_decide; cbn.
  - split; [done|]. eexists. split; [done|]. split; [done|].
    intros k Hk. rewrite entries_reset_state, decide_False; [done|].
    intros <-. apply Hk, list_elem_of_here.
  - split; [done|]. eauto.
Qed.

End Resetting.

Lemma reset_clears_targets_witness :
  log_parser Sample.live = Some (Sample.parser Sample.patterns Sample.store) ∧
  db_manager Sample.live !! 7 = Some Sample.guild ∧
  entries (Sample.parser Sample.patterns Sample.store) "7_alpha" =
    [Some 10; Some 10; Some 10; Some 10; Some 10] ∧
  targets Sample.live 7 None = ["7_alpha"; "7_2"] ∧
  (∃ lp',
     resetlogparser Sample.live 7 (Some "alpha") =
       (ResetDone (Z.of_nat (length (targets Sample.live 7 (Some "alpha")))),
        with_log_parser lp' Sample.live) ∧
     ∀ k, k ∈ targets Sample.live 7 (Some "alpha") →
          entries lp' k = cleared) ∧
  (∃ lp',
     resetlogparser Sample.live 7 None =
       (ResetDone (Z.of_nat (length (targets Sample.live 7 None))),
        with_log_parser lp' Sample.live) ∧
     ∀ k, k ∈ targets Sample.live 7 None → entries lp' k = cleared).
Proof.
  split; [reflexivity|].
  split; [vm_compute; reflexivity|].
  split; [vm_compute; reflexivity|].
  split; [vm_compute; reflexivity|].
  split.
  - apply (reset_clears_targets Sample.live 7 (Some "alpha")
             (Sample.parser Sample.patterns Sample.store) Sample.guild).
    + reflexivity.
    + vm_compute; reflexivity.
    + discriminate.
    + intros c named [= <- <-]. apply list_elem_of_here.
  - apply (reset_clears_targets Sample.live 7 None
             (Sample.parser Sample.patterns Sample.store) Sample.guild).
    + reflexivity.
    + vm_compute; reflexivity.
    + discriminate.
    + discriminate.
Defined.

Lemma reset_unknown_server_witness :
  log_parser Sample.live = Some (Sample.parser Sample.patterns Sample.store) ∧
  db_manager Sample.live !! 7 = Some Sample.guild ∧
  ("omega" ∉ server_ids Sample.guild) ∧
  resetlogparser Sample.live 7 (Some "omega") =
    (ServerNotFound "omega", Sample.live).
Proof.
  assert ("omega" ∉ server_ids Sample.guild) as Hin.
  { cbn. intros [E|[E|E]%elem_of_cons]%elem_of_cons;
      [discriminate E|discriminate E|by apply elem_of_nil in E]. }
  split; [reflexivity|].
  split; [vm_compute; reflexivity|].
  split; [exact Hin|].
  apply (reset_unknown_server Sample.live 7 "omega"
           (Sample.parser Sample.patterns Sample.store) Sample.guild).
  - reflexivity.
  - vm_compute; reflexivity.
  - discriminate.
  - discriminate.
  - exact Hin.
Defined.

Lemma reset_frame_witness :
  ("8_alpha" ∉ targets Sample.live 7 None) ∧
  entries (Sample.parser Sample.patterns Sample.store) "8_alpha" =
    [Some 30; Some 30; Some 30; Some 30; Some 30] ∧
  ∃ lp',
    log_parser (resetlogparser Sample.live 7 None).2 = Some lp' ∧
    log_patterns lp' = Sample.patterns ∧
    entries lp' "8_alpha" = [Some 30; Some 30; Some 30; Some 30; Some 30].
Proof.
  assert ("8_alpha" ∉ targets Sample.live 7 None) as Hin.
  { vm_compute. intros [E|[E|E]%elem_of_cons]%elem_of_cons;
      [discriminate E|discriminate E|by apply elem_of_nil in E]. }
  split; [exact Hin|].
  split; [vm_compute; reflexivity|].
  destruct (reset_frame Sample.live 7 None) as (_ & lp' & Hlp & Hp & He).
  exists lp'. split; [exact Hlp|]. split; [exact Hp|].
  rewrite (He "8_alpha" Hin). vm_compute; reflexivity.
Defined.

End ResetFacts.

(** * Further properties of the replay *)

Module ReplayFacts.
Import Validate PatternLibrary Totals Presence ValidateFacts.

Section Replayed.
Variable log_patterns : log_patterns_t.

Lemma lookup_joined (table : gmap group player_state) player_id :
  filter (λ entry, entry.2 = JOINED) table !! player_id =
    if decide (table !! player_id = Some JOINED) then Some JOINED else None.
Proof.
  case_decide as Hj.
  - by apply map_lookup_filter_Some_2.
  - destruct (filter _ table !! player_id) as [x|] eqn:E; [|done].
    apply map_lookup_filter_Some in E as [E1 E2]. cbn in E2. congruence.
Qed.

(** Storing a state for one player moves the number of joined players by
    what that player contributes before and after. *)
Lemma joined_insert (table : gmap group player_state) player_id state :
  joined (<[player_id := state]> table) =
    joined table
    + (if decide (state = JOINED) then 1 else 0)
    - (if decide (table !! player_id = Some JOINED) then 1 else 0).
Proof.
  unfold joined.
  pose proof (lookup_joined table player_id) as Hl.
  destruct (decide (state = JOINED)) as [->|Hs].
  - rewrite map_filter_insert_True by done.
    rewrite map_size_insert, Hl. case_decide; unfold id; lia.
  - rewrite map_filter_insert_False by done.
    rewrite map_filter_delete, map_size_delete, Hl.
    case_decide as Hj; unfold id; [|lia].
    assert (size (filter (λ entry, entry.2 = JOINED) table) ≠ 0%nat).
    { intros E%map_size_empty_inv. rewrite E in Hl.
      by rewrite lookup_empty in Hl. }
    lia.
Qed.

Lemma joined_nonneg (table : gmap group player_state) : 0 ≤ joined table.
Proof. unfold joined. lia. Qed.

(** Post-join disconnects plus the players still joined never exceed the
    player joins. *)
Lemma step_joined st line st' :
  step log_patterns st line = Ok st' →
  d1 st + joined (player_states st) ≤ j2 st →
  d1 st' + joined (player_states st') ≤ j2 st'.
Proof.
  intros H Hinv.
  step_cases H; rewrite ?joined_insert;
    repeat case_decide; try done;
    repeat match goal with
           | E : bool_decide _ = true |- _ => apply bool_decide_eq_true in E
           | E : bool_decide _ = false |- _ => apply bool_decide_eq_false in E
           end;
    try done; lia.
Qed.

Lemma replay_from_joined lines : ∀ st st',
  replay_from log_patterns st lines = Ok st' →
  d1 st + joined (player_states st) ≤ j2 st →
  d1 st' + joined (player_states st') ≤ j2 st'.
Proof.
  induction lines as [|line lines IH]; intros st st' H Hinv; cbn in H.
  - by injection H as <-.
  - destruct (step log_patterns st line) as [st1|] eqn:Hstep; cbn in H; [|done].
    eauto using step_joined.
Qed.

End Replayed.

(** X1.  Whatever the file, the player count of the embed is never negative:
    it is at least the number of players the replay still holds as [JOINED],
    so "Player Count Valid" always reads Yes. *)
Theorem player_count_never_negative {object : Type} (b : bot object)
    (lines : list string) (r : report) :
  (validatelogparser b (Some lines)).1 = Embed r →
  ∃ lp st,
    log_parser b = Some lp ∧
    replay (log_patterns lp) lines = Ok st ∧
    0 ≤ joined (player_states st) ≤ player_count r ∧
    player_count_valid r = true.
Proof.
  intros H.
  destruct (validatelogparser_embed _ _ _ H)
    as (lp & ? & st & Hlp & [= <-] & Hr & Hs).
  exists lp, st.
  destruct (summarize_counts _ _ Hs) as (Hpc & _ & _ & Hv & _).
  assert (d1 st + joined (player_states st) ≤ j2 st) as Hinv.
  { apply (replay_from_joined _ _ _ _ Hr). cbn.
    unfold joined. rewrite map_filter_empty, map_size_empty. lia. }
  pose proof (joined_nonneg (player_states st)).
  split; [done|]. split; [done|]. split; [lia|].
  rewrite Hv. apply bool_decide_eq_true. lia.
Qed.

Lemma player_count_never_negative_witness :
  (validatelogparser Sample.live (Some Sample.session)).1 =
    Embed Sample.session_report ∧
  ∃ lp st,
    log_parser Sample.live = Some lp ∧
    replay (log_patterns lp) Sample.session = Ok st ∧
    0 ≤ joined (player_states st) ≤ player_count Sample.session_report ∧
    player_count_valid Sample.session_report = true.
Proof.
  split; [vm_compute; reflexivity|].
  apply (player_count_never_negative Sample.live Sample.session
           Sample.session_report).
  vm_compute; reflexivity.
Defined.

(** ** What the figures of the embed count *)

(** Every figure the embed reads from [validation_results] is the entry
    stored there. *)
Lemma summarize_fields st r :
  summarize st = Ok r →
  validation_results st !! "total_lines" = Some (total_lines r) ∧
  validation_results st !! "queue_joins" = Some (queue_joins r) ∧
  validation_results st !! "player_joins" = Some (player_joins r) ∧
  validation_results st !! "disconnects_post_join" =
    Some (disconnects_post_join r) ∧
  validation_results st !! "missions_ready" = Some (missions_ready r) ∧
  validation_results st !! "missions_initial" = Some (missions_initial r) ∧
  validation_results st !! "airdrops_flying" = Some (airdrops_flying r) ∧
  patterns_working r = bool_decide (queue_joins r > 0).
Proof.
  unfold summarize, dict_get. intros H.
  repeat match type of H with
         | context [match ?x with _ => _ end] =>
             destruct x eqn:?; cbn in H; try discriminate H
         end.
  injection H as <-. cbn. done.
Qed.

Lemma tally_inj r r' : tally r = tally r' → r = r'.
Proof. by destruct r, r'. Qed.

(** One line adds to the tally of each rule what the line counts for it. *)
Lemma step_tally_counted log_patterns st line st' r :
  step log_patterns st line = Ok st' →
  validation_results st' !! tally r =
    (λ v, v + counted_lines log_patterns r [line])
      <$> validation_results st !! tally r.
Proof.
  intros H. cbn [counted_lines]. case_decide as Hr.
  - rewrite (step_tally_first_match _ _ _ _ _ H Hr).
    destruct (counted log_patterns r (strip line)),
      (validation_results st !! tally r); cbn; f_equal; unfold id; lia.
  - rewrite (step_frame _ _ _ _ (tally r) H).
    + destruct (validation_results st !! tally r); cbn; f_equal; lia.
    + by destruct r.
    + intros r' Hr' E%tally_inj. congruence.
Qed.

Lemma counted_lines_cons log_patterns r line lines :
  counted_lines log_patterns r (line :: lines) =
    counted_lines log_patterns r [line] + counted_lines log_patterns r lines.
Proof. cbn [counted_lines]. lia. Qed.

Lemma replay_from_tally_counted log_patterns r lines : ∀ st st',
  replay_from log_patterns st lines = Ok st' →
  validation_results st' !! tally r =
    (λ v, v + counted_lines log_patterns r lines)
      <$> validation_results st !! tally r.
Proof.
  induction lines as [|line lines IH]; intros st st' H.
  - injection H as <-. cbn.
    destruct (validation_results st !! tally r); cbn; f_equal; lia.
  - cbn in H.
    destruct (step log_patterns st line) as [st1|] eqn:Hstep; cbn in H; [|done].
    rewrite (IH _ _ H), (step_tally_counted _ _ _ _ r Hstep).
    rewrite counted_lines_cons.
    destruct (validation_results st !! tally r); cbn; f_equal; lia.
Qed.

Lemma replay_from_total_lines log_patterns lines : ∀ st st',
  replay_from log_patterns st lines = Ok st' →
  validation_results st' !! "total_lines" =
    (λ v, v + Z.of_nat (length lines))
      <$> validation_results st !! "total_lines".
Proof.
  induction lines as [|line lines IH]; intros st st' H.
  - injection H as <-. cbn.
    destruct (validation_results st !! "total_lines"); cbn; f_equal; lia.
  - cbn in H.
    destruct (step log_patterns st line) as [st1|] eqn:Hstep; cbn in H; [|done].
    rewrite (IH _ _ H), (step_total_lines _ _ _ _ Hstep).
    destruct (validation_results st !! "total_lines"); cbn; f_equal; lia.
Qed.

Lemma initial_tally r : validation_results initial !! tally r = Some 0.
Proof. destruct r; vm_compute; reflexivity. Qed.

Lemma initial_total_lines :
  validation_results initial !! "total_lines" = Some 0.
Proof. vm_compute; reflexivity. Qed.

(** A queue join, a player join, a disconnect and an airdrop are always
    counted. *)
Lemma counted_lines_classified log_patterns r lines :
  r ≠ Mission_ready → r ≠ Mission_initial →
  counted_lines log_patterns r lines = classified log_patterns r lines.
Proof.
  intros H1 H2. induction lines as [|line lines IH];
    cbn [counted_lines classified]; [done|].
  rewrite IH. unfold hit. case_decide; [|done]. by destruct r.
Qed.

(** X2.  The embed's "Queue Joins" and "Player Joins" are [jq] and [j2], but
    the figure it labels "Disconnects Post-Join (d1)" is the number of all
    disconnect lines, [d1 + d2]: it exceeds the [d1] used in the player count
    by the pre-join figure shown next to it.  Both derived counts can be read
    off the shown figures, and they add up to queue joins minus
    disconnects. *)
Theorem shown_disconnects_are_all_disconnects {object : Type} (b : bot object)
    (lines : list string) (r : report) :
  (validatelogparser b (Some lines)).1 = Embed r →
  ∃ lp st,
    log_parser b = Some lp ∧
    replay (log_patterns lp) lines = Ok st ∧
    queue_joins r = jq st ∧
    player_joins r = j2 st ∧
    disconnects_post_join r = d1 st + d2 st ∧
    disconnects_post_join r =
      classified (log_patterns lp) Disconnect_post_join lines ∧
    player_count r =
      player_joins r - (disconnects_post_join r - disconnects_pre_join r) ∧
    queue_count r = queue_joins r - player_joins r - disconnects_pre_join r ∧
    player_count r + queue_count r = queue_joins r - disconnects_post_join r.
Proof.
  intros H.
  destruct (validatelogparser_embed _ _ _ H)
    as (lp & ? & st & Hlp & [= <-] & Hr & Hs).
  exists lp, st.
  destruct (summarize_counts _ _ Hs) as (Hpc & Hqc & Hpre & _).
  destruct (summarize_fields _ _ Hs) as (_ & Hq & Hj & Hd & _).
  destruct (replay_consistent _ _ _ Hr) as (Hq' & Hj' & Hd' & _).
  destruct (replay_from_counts _ _ _ _ Hr) as (_ & _ & Hcl). cbn in Hcl.
  rewrite Hq in Hq'. rewrite Hj in Hj'. rewrite Hd in Hd'.
  injection Hq' as Hq'. injection Hj' as Hj'. injection Hd' as Hd'.
  repeat split; try done; lia.
Qed.

Lemma shown_disconnects_are_all_disconnects_witness :
  (validatelogparser Sample.live (Some Sample.session)).1 =
    Embed Sample.session_report ∧
  disconnects_post_join Sample.session_report = 2 ∧
  ∃ lp st,
    log_parser Sample.live = Some lp ∧
    replay (log_patterns lp) Sample.session = Ok st ∧
    queue_joins Sample.session_report = jq st ∧
    player_joins Sample.session_report = j2 st ∧
    disconnects_post_join Sample.session_report = d1 st + d2 st ∧
    disconnects_post_join Sample.session_report =
      classified (log_patterns lp) Disconnect_post_join Sample.session ∧
    player_count Sample.session_report =
      player_joins Sample.session_report
      - (disconnects_post_join Sample.session_report
         - disconnects_pre_join Sample.session_report) ∧
    queue_count Sample.session_report =
      queue_joins Sample.session_report - player_joins Sample.session_report
      - disconnects_pre_join Sample.session_report ∧
    player_count Sample.session_report + queue_count Sample.session_report =
      queue_joins Sample.session_report
      - disconnects_post_join Sample.session_report.
Proof.
  split; [vm_compute; reflexivity|].
  split; [reflexivity|].
  apply (shown_disconnects_are_all_disconnects Sample.live Sample.session
           Sample.session_report).
  vm_compute; reflexivity.
Defined.

(** X3.  The description of the embed shows the number of lines of the file;
    "Airdrops Flying" is the number of lines classified as airdrops;
    "Missions Ready" and "Missions Initial" are the numbers of lines
    classified under that rule whose name contains ["mis"]; and "Patterns
    Working" reads Yes exactly when some line is classified as a queue
    join. *)
Theorem shown_tallies_count_lines {object : Type} (b : bot object)
    (lines : list string) (r : report) :
  (validatelogparser b (Some lines)).1 = Embed r →
  ∃ lp,
    log_parser b = Some lp ∧
    total_lines r = Z.of_nat (length lines) ∧
    airdrops_flying r = classified (log_patterns lp) Airdrop_flying lines ∧
    missions_ready r = counted_lines (log_patterns lp) Mission_ready lines ∧
    missions_initial r =
      counted_lines (log_patterns lp) Mission_initial lines ∧
    (patterns_working r = true ↔
       0 < classified (log_patterns lp) Queue_join lines).
Proof.
  intros H.
  destruct (validatelogparser_embed _ _ _ H)
    as (lp & ? & st & Hlp & [= <-] & Hr & Hs).
  exists lp. split; [done|].
  destruct (summarize_fields _ _ Hs) as (Ht & Hq & _ & _ & Hm & Hi & Ha & Hw).
  pose proof (replay_from_total_lines _ _ _ _ Hr) as Ht'.
  pose proof (replay_from_tally_counted _ Airdrop_flying _ _ _ Hr) as Ha'.
  pose proof (replay_from_tally_counted _ Mission_ready _ _ _ Hr) as Hm'.
  pose proof (replay_from_tally_counted _ Mission_initial _ _ _ Hr) as Hi'.
  pose proof (replay_from_tally_counted _ Queue_join _ _ _ Hr) as Hq'.
  rewrite initial_total_lines, Ht in Ht'.
  rewrite initial_tally in Ha', Hm', Hi', Hq'.
  cbn [tally] in Ha', Hm', Hi', Hq'.
  rewrite Ha in Ha'. rewrite Hm in Hm'. rewrite Hi in Hi'. rewrite Hq in Hq'.
  injection Ht' as Ht'. injection Ha' as Ha'. injection Hm' as Hm'.
  injection Hi' as Hi'. injection Hq' as Hq'.
  rewrite counted_lines_classified in Ha' by done.
  rewrite counted_lines_classified in Hq' by done.
  repeat split; try lia.
  - rewrite Hw. intros E%bool_decide_eq_true. lia.
  - intros E. rewrite Hw. apply bool_decide_eq_true. lia.
Qed.

Lemma shown_tallies_count_lines_witness :
  (validatelogparser Sample.live (Some Sample.outing)).1 =
    Embed Sample.outing_report ∧
  missions_ready Sample.outing_report = 1 ∧
  total_lines Sample.outing_report = 5 ∧
  ∃ lp,
    log_parser Sample.live = Some lp ∧
    total_lines Sample.outing_report = Z.of_nat (length Sample.outing) ∧
    airdrops_flying Sample.outing_report =
      classified (log_patterns lp) Airdrop_flying Sample.outing ∧
    missions_ready Sample.outing_report =
      counted_lines (log_patterns lp) Mission_ready Sample.outing ∧
    missions_initial Sample.outing_report =
      counted_lines (log_patterns lp) Mission_initial Sample.outing ∧
    (patterns_working Sample.outing_report = true ↔
       0 < classified (log_patterns lp) Queue_join Sample.outing).
Proof.
  split; [vm_compute; reflexivity|].
  split; [reflexivity|].
  split; [reflexivity|].
  apply (shown_tallies_count_lines Sample.live Sample.outing
           Sample.outing_report).
  vm_compute; reflexivity.
Defined.

(** ** The keys of [validation_results] *)

Lemma step_dom log_patterns st line st' :
  step log_patterns st line = Ok st' →
  dom (validation_results st') = dom (validation_results st).
Proof.
  intros H.
  step_cases H; by rewrite !dom_insert_lookup_L by eauto.
Qed.

Lemma replay_from_dom log_patterns lines : ∀ st st',
  replay_from log_patterns st lines = Ok st' →
  dom (validation_results st') = dom (validation_results st).
Proof.
  induction lines as [|line lines IH]; intros st st' H; cbn in H.
  - by injection H as <-.
  - destruct (step log_patterns st line) as [st1|] eqn:Hstep; cbn in H; [|done].
    rewrite (IH _ _ H). by eapply step_dom.
Qed.

Lemma replay_from_unused log_patterns lines k : ∀ st st',
  replay_from log_patterns st lines = Ok st' →
  k ≠ "total_lines" → (∀ r, k ≠ tally r) →
  validation_results st' !! k = validation_results st !! k.
Proof.
  induction lines as [|line lines IH]; intros st st' H Hk Hr; cbn in H.
  - by injection H as <-.
  - destruct (step log_patterns st line) as [st1|] eqn:Hstep; cbn in H; [|done].
    rewrite (IH _ _ H Hk Hr). apply (step_frame _ _ _ _ _ Hstep Hk). auto.
Qed.

(** X4.  A replay never adds a key to [validation_results] nor removes one:
    the dictionary keeps the ten keys it is created with, and the entries
    ['heli_crashes'] and ['traders'], which no branch of the loop touches,
    are still 0 at the end. *)
Theorem results_keys_fixed (log_patterns : log_patterns_t)
    (lines : list string) (st : locals) :
  replay log_patterns lines = Ok st →
  dom (validation_results st) = dom (validation_results initial) ∧
  size (validation_results st) = 10%nat ∧
  validation_results st !! "heli_crashes" = Some 0 ∧
  validation_results st !! "traders" = Some 0.
Proof.
  intros H. pose proof (replay_from_dom _ _ _ _ H) as Hdom.
  split; [done|]. split.
  - rewrite <- size_dom, Hdom, size_dom. vm_compute; reflexivity.
  - split.
    + rewrite (replay_from_unused _ _ "heli_crashes" _ _ H); [done..|].
      by intros [].
    + rewrite (replay_from_unused _ _ "traders" _ _ H); [done..|].
      by intros [].
Qed.

Lemma results_keys_fixed_witness :
  replay Sample.patterns Sample.session =
    Ok (Sample.locals_after Sample.session) ∧
  dom (validation_results (Sample.locals_after Sample.session)) =
    dom (validation_results initial) ∧
  size (validation_results (Sample.locals_after Sample.session)) = 10%nat ∧
  validation_results (Sample.locals_after Sample.session) !! "heli_crashes" =
    Some 0 ∧
  validation_results (Sample.locals_after Sample.session) !! "traders" =
    Some 0.
Proof.
  split; [vm_compute; reflexivity|].
  apply (results_keys_fixed Sample.patterns Sample.session
           (Sample.locals_after Sample.session)).
  vm_compute; reflexivity.
Defined.

(** ** Composition and failure of the replay *)


Lemma replay_in_two_passes_aux log_patterns first rest :
  replay log_patterns (first ++ rest) =
    (st ← replay log_patterns first; replay_from log_patterns st rest).
Proof. apply replay_from_app. Qed.




(** X7.  An exception raised while a line is processed fails the whole
    command: if replaying the lines up to and including that line raises
    [e], the answer for any file that starts with these lines is the failure
    message for [e], and no embed is sent. *)
Theorem validator_fails_as_first_error {object : Type} (b : bot object)
    (lp : log_parser_t object) (first rest : list string) (e : exn) :
  log_parser b = Some lp →
  replay (log_patterns lp) first = Raise e →
  (validatelogparser b (Some (first ++ rest)%list)).1 = Failed e.
Proof.
  intros Hlp Hr. unfold validatelogparser. rewrite Hlp.
  rewrite replay_in_two_passes_aux, Hr. done.
Qed.

Lemma validator_fails_as_first_error_witness :
  log_parser Sample.careless = Some (Sample.parser Sample.short_capture ∅) ∧
  replay Sample.short_capture ["join 1"; "queue Ann"] = Raise ValueError ∧
  (validatelogparser Sample.careless
     (Some (["join 1"; "queue Ann"] ++ ["close 1"])%list)).1 =
    Failed ValueError.
Proof.
  split; [reflexivity|].
  split; [vm_compute; reflexivity|].
  apply (validator_fails_as_first_error Sample.careless
           (Sample.parser Sample.short_capture ∅)
           ["join 1"; "queue Ann"] ["close 1"] ValueError).
  - reflexivity.
  - vm_compute; reflexivity.
Defined.

(** ** Queue joins, player joins and the other lines *)

(** X8.  A queue-join line is accepted whatever the player's stored state:
    after any replayed lines, it increments [jq] alone and stores the
    captured player id as [QUEUED], overwriting the previous entry and
    leaving every other player's entry alone.  The captured player name plays
    no part. *)
Theorem queue_join_overwrites (log_patterns : log_patterns_t)
    (pre : list string) (line : string) (player_name player_id : group)
    (st : locals) :
  replay log_patterns pre = Ok st →
  queue_join log_patterns (strip line) = Some [player_name; player_id] →
  ∃ st',
    replay log_patterns (pre ++ [line]) = Ok st' ∧
    jq st' = jq st + 1 ∧ j2 st' = j2 st ∧ d1 st' = d1 st ∧ d2 st' = d2 st ∧
    player_states st' = <[player_id := QUEUED]> (player_states st).
Proof.
  intros Hpre Hmatch.
  destruct (replay_consistent _ _ _ Hpre)
    as (Hq & _ & _ & _ & _ & _ & _ & [t Ht]).
  rewrite replay_in_two_passes_aux, Hpre. cbn.
  unfold step, dict_incr. rewrite Ht. cbn. rewrite Hmatch. cbn.
  rewrite lookup_insert_ne, Hq by done. cbn.
  eexists. split; [reflexivity|]. done.
Qed.

Lemma queue_join_overwrites_witness :
  replay Sample.patterns Sample.arrival =
    Ok (Sample.locals_after Sample.arrival) ∧
  queue_join Sample.patterns (strip "queue Someone 1") =
    Some [Some "Someone"; Some "1"] ∧
  player_states (Sample.locals_after Sample.arrival) !! Some "1" =
    Some JOINED ∧
  ∃ st',
    replay Sample.patterns (Sample.arrival ++ ["queue Someone 1"]) = Ok st' ∧
    jq st' = jq (Sample.locals_after Sample.arrival) + 1 ∧
    j2 st' = j2 (Sample.locals_after Sample.arrival) ∧
    d1 st' = d1 (Sample.locals_after Sample.arrival) ∧
    d2 st' = d2 (Sample.locals_after Sample.arrival) ∧
    player_states st' =
      <[Some "1" := QUEUED]>
        (player_states (Sample.locals_after Sample.arrival)).
Proof.
  split; [vm_compute; reflexivity|].
  split; [vm_compute; reflexivity|].
  split; [vm_compute; reflexivity|].
  apply (queue_join_overwrites Sample.patterns Sample.arrival
           "queue Someone 1" (Some "Someone") (Some "1")
           (Sample.locals_after Sample.arrival));
    vm_compute; reflexivity.
Defined.

(** X9.  A player-join line is accepted whatever the player's stored state,
    queued before or not: after any replayed lines, it increments [j2] alone
    and stores the captured player id as [JOINED], leaving every other
    player's entry alone. *)
Theorem player_join_overwrites (log_patterns : log_patterns_t)
    (pre : list string) (line : string) (player_id : group)
    (rest : list group) (st : locals) :
  replay log_patterns pre = Ok st →
  first_match log_patterns (strip line) = Some Player_joined →
  player_joined log_patterns (strip line) = Some (player_id :: rest) →
  ∃ st',
    replay log_patterns (pre ++ [line]) = Ok st' ∧
    jq st' = jq st ∧ j2 st' = j2 st + 1 ∧ d1 st' = d1 st ∧ d2 st' = d2 st ∧
    player_states st' = <[player_id := JOINED]> (player_states st).
Proof.
  intros Hpre Hfirst Hmatch.
  destruct (replay_consistent _ _ _ Hpre)
    as (_ & Hj & _ & _ & _ & _ & _ & [t Ht]).
  rewrite first_match_chain in Hfirst.
  rewrite replay_in_two_passes_aux, Hpre. cbn.
  unfold step, dict_incr. rewrite Ht. cbn.
  destruct (queue_join log_patterns (strip line)); [done|].
  rewrite Hmatch. cbn.
  rewrite lookup_insert_ne, Hj by done. cbn.
  eexists. split; [reflexivity|]. done.
Qed.

Lemma player_join_overwrites_witness :
  replay Sample.patterns ["close 5"] =
    Ok (Sample.locals_after ["close 5"]) ∧
  first_match Sample.patterns (strip "join 5") = Some Player_joined ∧
  player_joined Sample.patterns (strip "join 5") = Some [Some "5"] ∧
  player_states (Sample.locals_after ["close 5"]) !! Some "5" =
    Some DISCONNECTED ∧
  ∃ st',
    replay Sample.patterns (["close 5"] ++ ["join 5"]) = Ok st' ∧
    jq st' = jq (Sample.locals_after ["close 5"]) ∧
    j2 st' = j2 (Sample.locals_after ["close 5"]) + 1 ∧
    d1 st' = d1 (Sample.locals_after ["close 5"]) ∧
    d2 st' = d2 (Sample.locals_after ["close 5"]) ∧
    player_states st' =
      <[Some "5" := JOINED]> (player_states (Sample.locals_after ["close 5"])).
Proof.
  split; [vm_compute; reflexivity|].
  split; [vm_compute; reflexivity|].
  split; [vm_compute; reflexivity|].
  split; [vm_compute; reflexivity|].
  apply (player_join_overwrites Sample.patterns ["close 5"] "join 5"
           (Some "5") [] (Sample.locals_after ["close 5"]));
    vm_compute; reflexivity.
Defined.

(** X10.  A line whose first matching rule is none of the three connection
    rules -- a mission line, an airdrop or a line no rule matches -- leaves
    [jq], [j2], [d1], [d2] and the player table as they were. *)
Theorem other_lines_keep_presence (log_patterns : log_patterns_t)
    (st : locals) (line : string) (st' : locals) :
  step log_patterns st line = Ok st' →
  first_match log_patterns (strip line) ≠ Some Queue_join →
  first_match log_patterns (strip line) ≠ Some Player_joined →
  first_match log_patterns (strip line) ≠ Some Disconnect_post_join →
  jq st' = jq st ∧ j2 st' = j2 st ∧ d1 st' = d1 st ∧ d2 st' = d2 st ∧
  player_states st' = player_states st.
Proof.
  rewrite first_match_chain. intros H Hq Hj Hd.
  step_cases H; try done;
    match goal with
    | E : ?p ?l = Some _, F : context [match ?p ?l with _ => _ end] |- _ =>
        rewrite E in F; done
    end.
Qed.

Lemma other_lines_keep_presence_witness :
  step Sample.patterns (Sample.locals_after Sample.arrival) "airdrop" =
    Ok (Sample.locals_after (Sample.arrival ++ ["airdrop"])) ∧
  jq (Sample.locals_after (Sample.arrival ++ ["airdrop"])) = 1 ∧
  player_states (Sample.locals_after (Sample.arrival ++ ["airdrop"])) =
    player_states (Sample.locals_after Sample.arrival).
Proof.
  split; [vm_compute; reflexivity|].
  destruct (other_lines_keep_presence Sample.patterns
              (Sample.locals_after Sample.arrival) "airdrop"
              (Sample.locals_after (Sample.arrival ++ ["airdrop"])))
    as (Hjq & _ & _ & _ & Ht);
    [vm_compute; reflexivity | vm_compute; discriminate
    | vm_compute; discriminate | vm_compute; discriminate |].
  split; [rewrite Hjq; vm_compute; reflexivity | exact Ht].
Defined.

(** ** Whitespace around a line *)

Lemma append_cons c w s : String c w +:+ s = String c (w +:+ s).
Proof. reflexivity. Qed.

Lemma append_empty_r w : w +:+ "" = w.
Proof. induction w as [|c w IH]; [done|]. by rewrite append_cons, IH. Qed.












End ReplayFacts.

(** * Further properties of the reset *)

Module ResetAlgebra.
Import Reset Observe Resets ResetFacts.

Section Resetting.
Context {object : Type}.
Implicit Types (lp : log_parser_t object) (b : bot object).

Lemma pop_pop key1 key2 (attr : option (gmap string object)) :
  pop key1 (pop key2 attr) = pop key2 (pop key1 attr).
Proof. destruct attr; cbn; [|done]. by rewrite delete_delete. Qed.

Lemma pop_idemp key (attr : option (gmap string object)) :
  pop key (pop key attr) = pop key attr.
Proof. destruct attr; cbn; [|done]. by rewrite delete_delete_eq. Qed.

Lemma reset_state_comm key1 key2 lp :
  reset_state key1 (reset_state key2 lp) =
    reset_state key2 (reset_state key1 lp).
Proof.
  unfold reset_state. cbn. f_equal; try apply pop_pop.
  destruct (connection_parser lp) as [cp|]; cbn; [|done].
  f_equal. f_equal; apply pop_pop.
Qed.

Lemma reset_state_idemp key lp :
  reset_state key (reset_state key lp) = reset_state key lp.
Proof.
  unfold reset_state. cbn. f_equal; try apply pop_idemp.
  destruct (connection_parser lp) as [cp|]; cbn; [|done].
  f_equal. f_equal; apply pop_idemp.
Qed.

Lemma reset_keys_cons key keys lp :
  reset_keys (key :: keys) lp = reset_keys keys (reset_state key lp).
Proof. reflexivity. Qed.

Lemma reset_state_keys key keys : ∀ lp,
  reset_state key (reset_keys keys lp) = reset_keys keys (reset_state key lp).
Proof.
  induction keys as [|k keys IH]; intros lp; [done|].
  rewrite !reset_keys_cons, IH. by rewrite reset_state_comm.
Qed.

Lemma reset_keys_idemp keys : ∀ lp,
  reset_keys keys (reset_keys keys lp) = reset_keys keys lp.
Proof.
  induction keys as [|k keys IH]; intros lp; [done|].
  rewrite !reset_keys_cons, reset_state_keys, reset_state_idemp.
  apply IH.
Qed.

Lemma reset_keys_perm keys keys' lp :
  keys ≡ₚ keys' → reset_keys keys lp = reset_keys keys' lp.
Proof.
  intros Hp. revert lp.
  induction Hp as [|k ks ks' _ IH|k1 k2 ks|ks1 ks2 ks3 _ IH1 _ IH2];
    intros lp.
  - done.
  - by rewrite !reset_keys_cons, IH.
  - by rewrite !reset_keys_cons, reset_state_comm.
  - by rewrite IH1, IH2.
Qed.

(** The loop of the [else] branch visits the keys of all servers. *)
Lemma reset_all_keys guild_id servers : ∀ (n : Z) lp,
  fold_left
    (λ acc server,
       (acc.1 + 1,
        reset_state (server_key guild_id (str (_id server))) acc.2))
    servers (n, lp) =
  (n + Z.of_nat (length servers),
   reset_keys
     (server_key guild_id <$> ((λ server, str (_id server)) <$> servers)) lp).
Proof.
  induction servers as [|server rest IH]; intros n lp; cbn.
  - f_equal. lia.
  - rewrite IH. cbn. f_equal. lia.
Qed.

Lemma with_log_parser_twice lp lp' b :
  with_log_parser lp' (with_log_parser lp b) = with_log_parser lp' b.
Proof. reflexivity. Qed.

(** The command, with its two loops replaced by what they compute. *)
Lemma resetlogparser_spec b guild_id server_id :
  resetlogparser b guild_id server_id =
    match log_parser b with
    | None => (NotInitialized, b)
    | Some lp =>
        match db_manager b !! guild_id with
        | None => (GuildNotConfigured, b)
        | Some cfg =>
            match servers cfg with
            | [] => (NoServers, b)
            | _ =>
                match server_id with
                | Some (String c named) =>
                    if decide (String c named ∈ server_ids cfg)
                    then (ResetDone 1,
                          with_log_parser
                            (reset_keys [server_key guild_id (String c named)]
                               lp) b)
                    else (ServerNotFound (String c named), b)
                | _ =>
                    (ResetDone (Z.of_nat (length (servers cfg))),
                     with_log_parser
                       (reset_keys (server_key guild_id <$> server_ids cfg) lp)
                       b)
                end
            end
        end
    end.
Proof.
  unfold resetlogparser.
  destruct (log_parser b) as [lp|] eqn:Hlp; [|done].
  destruct (db_manager b !! guild_id) as [cfg|]; [|done].
  unfold server_ids.
  destruct (servers cfg) as [|s0 rest] eqn:Hs; [done|].
  assert (∀ (R : Type) (f : Z → log_parser_t object → R),
            (let '(reset_count, lp') := reset_all guild_id (s0 :: rest) lp in
             f reset_count lp') =
            f (Z.of_nat (length (s0 :: rest)))
              (reset_keys
                 (server_key guild_id <$>
                    ((λ server, str (_id server)) <$> (s0 :: rest))) lp))
    as Hall.
  { intros R f. unfold reset_all. by rewrite reset_all_keys. }
  destruct server_id as [[|c named]|].
  - apply (Hall _ (λ n lp', (ResetDone n, with_log_parser lp' b))).
  - rewrite reset_specific_spec. case_decide; [done|].
    by rewrite with_log_parser_same.
  - apply (Hall _ (λ n lp', (ResetDone n, with_log_parser lp' b))).
Qed.

Lemma entries_reset_keys keys : ∀ lp k,
  entries (reset_keys keys lp) k =
    if decide (k ∈ keys) then cleared else entries lp k.
Proof.
  induction keys as [|key keys IH]; intros lp k.
  - by rewrite decide_False by apply not_elem_of_nil.
  - rewrite reset_keys_cons, IH, entries_reset_state.
    repeat case_decide; try done; subst.
    + exfalso. match goal with H : _ ∉ _ :: _ |- _ => apply H end.
      by apply list_elem_of_further.
    + exfalso. match goal with H : _ ∉ _ :: _ |- _ => apply H end.
      apply list_elem_of_here.
    + match goal with
      | H : _ ∈ _ :: _ |- _ => apply elem_of_cons in H as [?|?]
      end; done.
Qed.


(** X13.  A reset is idempotent: the same request issued a second time
    right after the first gets the same answer and leaves the bot as the
    first one left it. *)
Theorem reset_twice b (guild_id : Z) (server_id : option string) :
  resetlogparser (resetlogparser b guild_id server_id).2 guild_id server_id =
    resetlogparser b guild_id server_id.
Proof.
  rewrite (resetlogparser_spec b).
  destruct (log_parser b) as [lp|] eqn:Hlp.
  2: { cbn. rewrite resetlogparser_spec. by rewrite Hlp. }
  destruct (db_manager b !! guild_id) as [cfg|] eqn:Hcfg.
  2: { cbn. rewrite resetlogparser_spec. by rewrite Hlp, Hcfg. }
  destruct (servers cfg) as [|s0 rest] eqn:Hs.
  { cbn. rewrite resetlogparser_spec. by rewrite Hlp, Hcfg, Hs. }
  destruct server_id as [[|c named]|]; cbn [snd].
  - rewrite resetlogparser_spec. cbn -[reset_keys]. rewrite Hcfg, Hs.
    by rewrite reset_keys_idemp.
  - case_decide as Hin; cbn [snd].
    + rewrite resetlogparser_spec. cbn -[reset_keys]. rewrite Hcfg, Hs.
      rewrite decide_True by done. by rewrite reset_keys_idemp.
    + rewrite resetlogparser_spec. rewrite Hlp, Hcfg, Hs.
      by rewrite decide_False by done.
  - rewrite resetlogparser_spec. cbn -[reset_keys]. rewrite Hcfg, Hs.
    by rewrite reset_keys_idemp.
Qed.

Lemma reset_each_keys guild_id (cfg : guild_config) ids : ∀ b lp,
  log_parser b = Some lp →
  db_manager b !! guild_id = Some cfg →
  servers cfg ≠ [] →
  (∀ id, id ∈ ids → id ≠ "" ∧ id ∈ server_ids cfg) →
  reset_each b guild_id ids =
    with_log_parser (reset_keys (server_key guild_id <$> ids) lp) b.
Proof.
  induction ids as [|id ids IH]; intros b lp Hlp Hcfg Hs Hids.
  - cbn. by rewrite with_log_parser_same.
  - destruct (Hids id (list_elem_of_here _ _)) as [Hne Hin].
    unfold reset_each. cbn [fold_left].
    rewrite resetlogparser_spec, Hlp, Hcfg.
    assert (∃ s0 rest, servers cfg = s0 :: rest) as (s0 & rest & Hservers).
    { destruct (servers cfg); [done|eauto]. }
    rewrite Hservers.
    destruct id as [|c named]; [done|].
    rewrite decide_True by done. cbn [snd].
    change (fold_left _ ids ?b') with (reset_each b' guild_id ids).
    rewrite (IH _ (reset_keys [server_key guild_id (String c named)] lp));
      try done.
    intros id' Hid'. apply Hids. by apply list_elem_of_further.
Qed.

(** X14.  With the log parser running, a guild-wide reset leaves the bot as
    one reset request per configured server does -- in the configured order
    or in any other order -- provided no server's id renders as the empty
    string. *)
Theorem reset_all_is_each b (guild_id : Z) lp (cfg : guild_config)
    (ids : list string) :
  log_parser b = Some lp →
  db_manager b !! guild_id = Some cfg →
  servers cfg ≠ [] →
  "" ∉ server_ids cfg →
  ids ≡ₚ server_ids cfg →
  (resetlogparser b guild_id None).2 = reset_each b guild_id ids.
Proof.
  intros Hlp Hcfg Hs Hne Hperm.
  rewrite (reset_each_keys guild_id cfg ids b lp Hlp Hcfg Hs).
  - rewrite resetlogparser_spec, Hlp, Hcfg.
    destruct (servers cfg) as [|s0 rest] eqn:Hservers; [done|]. cbn [snd].
    f_equal. apply reset_keys_perm. by rewrite Hperm.
  - intros id Hid. rewrite Hperm in Hid. split; [|done].
    intros ->. by apply Hne.
Qed.

Lemma shrunk_refl (attr : option (gmap string object)) : shrunk attr attr.
Proof. destruct attr; cbn; [reflexivity|done]. Qed.

Lemma shrunk_trans (a1 a2 a3 : option (gmap string object)) :
  shrunk a1 a2 → shrunk a2 a3 → shrunk a1 a3.
Proof.
  destruct a1, a2, a3; cbn; try done. intros H1 H2. by trans g0.
Qed.

Lemma shrunk_pop key (attr : option (gmap string object)) :
  shrunk attr (pop key attr).
Proof. destruct attr; cbn; [|done]. apply delete_subseteq. Qed.

Lemma stores_reset_state key lp :
  Forall2 shrunk (stores lp) (stores (reset_state key lp)) ∧
  (is_Some (connection_parser (reset_state key lp)) ↔
   is_Some (connection_parser lp)).
Proof.
  unfold stores, reset_state. cbn. split.
  - repeat constructor; try apply shrunk_pop;
      destruct (connection_parser lp) as [cp|]; cbn; try done;
      apply shrunk_pop.
  - by rewrite fmap_is_Some.
Qed.

Lemma stores_reset_keys keys : ∀ lp,
  Forall2 shrunk (stores lp) (stores (reset_keys keys lp)) ∧
  (is_Some (connection_parser (reset_keys keys lp)) ↔
   is_Some (connection_parser lp)).
Proof.
  induction keys as [|key keys IH]; intros lp.
  - split; [|done]. unfold stores. repeat constructor; apply shrunk_refl.
  - rewrite reset_keys_cons.
    destruct (IH (reset_state key lp)) as [IH1 IH2].
    destruct (stores_reset_state key lp) as [H1 H2].
    split; [|by rewrite IH2].
    unfold stores in *.
    repeat match goal with
           | H : Forall2 _ (_ :: _) (_ :: _) |- _ =>
               apply Forall2_cons in H as [? H]
           end.
    repeat constructor; by eapply shrunk_trans.
Qed.

(** X15.  Whatever the request and its answer, a reset only removes: every
    per-server dictionary that was absent is still absent, every one that
    was present is still present and holds a part of what it held (no key is
    added and no surviving value changes), and the connection parser and the
    pattern table stay in place. *)
Theorem reset_only_removes b (guild_id : Z) (server_id : option string) lp :
  log_parser b = Some lp →
  ∃ lp',
    log_parser (resetlogparser b guild_id server_id).2 = Some lp' ∧
    Forall2 shrunk (stores lp) (stores lp') ∧
    (is_Some (connection_parser lp') ↔ is_Some (connection_parser lp)).
Proof.
  intros Hlp. rewrite resetlogparser_spec, Hlp.
  assert (∃ lp', Some lp = Some lp' ∧
            Forall2 shrunk (stores lp) (stores lp') ∧
            (is_Some (connection_parser lp') ↔
             is_Some (connection_parser lp))) as Hsame.
  { exists lp. split; [done|]. apply (stores_reset_keys [] lp). }
  destruct (db_manager b !! guild_id) as [cfg|]; cbn [snd];
    [|by rewrite Hlp].
  destruct (servers cfg); cbn [snd]; [by rewrite Hlp|].
  destruct server_id as [[|c named]|]; cbn [snd].
  - eexists. split; [reflexivity|]. apply stores_reset_keys.
  - case_decide; cbn [snd]; [|by rewrite Hlp].
    eexists. split; [reflexivity|]. apply stores_reset_keys.
  - eexists. split; [reflexivity|]. apply stores_reset_keys.
Qed.

End Resetting.

(** ** Server keys of different guilds *)

Lemma pretty_N_go_free x : ∀ s,
  free_of "_" s → free_of "_" (pretty_N_go x s).
Proof.
  induction (N.lt_wf_0 x) as [x _ IH]; intros s Hs.
  destruct (decide (x = 0)%N) as [->|Hx]; [by rewrite pretty_N_go_0|].
  rewrite pretty_N_go_step by lia.
  apply IH; [apply N.div_lt; lia|].
  split; [|done]. unfold pretty_N_char. by repeat case_match.
Qed.

Lemma pretty_N_free (x : N) : free_of "_" (pretty x).
Proof.
  unfold pretty, pretty_N. case_decide; [by cbn|].
  by apply pretty_N_go_free.
Qed.

Lemma pretty_Z_free (z : Z) : free_of "_" (pretty z).
Proof.
  destruct z as [|p|p]; unfold pretty, pretty_Z.
  - by cbn.
  - apply pretty_N_free.
  - split; [done|]. apply pretty_N_free.
Qed.

Lemma prefix_before_underscore p1 : ∀ p2 s1 s2,
  free_of "_" p1 → free_of "_" p2 →
  p1 +:+ "_" +:+ s1 = p2 +:+ "_" +:+ s2 → p1 = p2 ∧ s1 = s2.
Proof.
  induction p1 as [|c1 p1 IH]; intros [|c2 p2] s1 s2 H1 H2 E.
  - by injection E.
  - injection E as Ec _. destruct H2 as [H2 _]. by destruct H2.
  - injection E as Ec _. destruct H1 as [H1 _]. by destruct H1.
  - injection E as -> E. destruct H1 as [_ H1], H2 as [_ H2].
    by destruct (IH p2 s1 s2 H1 H2 E) as [-> ->].
Qed.

(** A server key determines the guild and the server id it was built from. *)
Lemma server_key_inj guild_id guild_id' server_id server_id' :
  server_key guild_id server_id = server_key guild_id' server_id' →
  guild_id = guild_id' ∧ server_id = server_id'.
Proof.
  unfold server_key. intros E.
  apply prefix_before_underscore in E as [E ->]; try apply pretty_Z_free.
  split; [|done]. by apply (inj pretty).
Qed.

(** X16.  A reset requested in one guild leaves every server key of every
    other guild alone: whatever the request, the last log position, file
    state, player states, server statistics and server status stored for a
    server of another guild are what they were. *)
Theorem reset_spares_other_guilds {object : Type} (b : bot object)
    (guild_id other_guild : Z) (server_id : option string)
    (other_server : string) (lp : log_parser_t object) :
  other_guild ≠ guild_id →
  log_parser b = Some lp →
  ∃ lp',
    log_parser (resetlogparser b guild_id server_id).2 = Some lp' ∧
    entries lp' (server_key other_guild other_server) =
      entries lp (server_key other_guild other_server).
Proof.
  intros Hg Hlp. rewrite resetlogparser_spec, Hlp.
  assert (∀ ids : list string,
            server_key other_guild other_server ∉
              server_key guild_id <$> ids) as Hout.
  { intros ids (id & E & _)%list_elem_of_fmap.
    by apply server_key_inj in E as [E _]. }
  destruct (db_manager b !! guild_id) as [cfg|]; cbn [snd]; [|by eauto].
  destruct (servers cfg); cbn [snd]; [by eauto|].
  destruct server_id as [[|c named]|]; cbn [snd].
  - eexists. split; [reflexivity|].
    by rewrite entries_reset_keys, decide_False.
  - case_decide; cbn [snd]; [|by eauto].
    eexists. split; [reflexivity|].
    rewrite entries_reset_keys, decide_False; [done|].
    apply (Hout [String c named]).
  - eexists. split; [reflexivity|].
    by rewrite entries_reset_keys, decide_False.
Qed.


Lemma reset_all_is_each_witness :
  log_parser Sample.live = Some (Sample.parser Sample.patterns Sample.store) ∧
  db_manager Sample.live !! 7 = Some Sample.guild ∧
  server_ids Sample.guild = ["alpha"; "2"] ∧
  (resetlogparser Sample.live 7 None).2 =
    reset_each Sample.live 7 ["2"; "alpha"].
Proof.
  split; [reflexivity|].
  split; [vm_compute; reflexivity|].
  split; [vm_compute; reflexivity|].
  apply (reset_all_is_each Sample.live 7
           (Sample.parser Sample.patterns Sample.store) Sample.guild
           ["2"; "alpha"]).
  - reflexivity.
  - vm_compute; reflexivity.
  - discriminate.
  - cbn. intros [E|[E|E]%elem_of_cons]%elem_of_cons;
      [discriminate E|discriminate E|by apply elem_of_nil in E].
  - cbn. apply perm_swap.
Defined.

Lemma reset_only_removes_witness :
  log_parser Sample.live = Some (Sample.parser Sample.patterns Sample.store) ∧
  ∃ lp',
    log_parser (resetlogparser Sample.live 7 (Some "alpha")).2 = Some lp' ∧
    Forall2 shrunk (stores (Sample.parser Sample.patterns Sample.store))
      (stores lp') ∧
    (is_Some (connection_parser lp') ↔
     is_Some (connection_parser (Sample.parser Sample.patterns Sample.store))).
Proof.
  split; [reflexivity|].
  apply (reset_only_removes Sample.live 7 (Some "alpha")
           (Sample.parser Sample.patterns Sample.store)).
  reflexivity.
Defined.

Lemma reset_spares_other_guilds_witness :
  8 ≠ 7 ∧
  log_parser Sample.live = Some (Sample.parser Sample.patterns Sample.store) ∧
  server_key 8 "alpha" = "8_alpha" ∧
  entries (Sample.parser Sample.patterns Sample.store) (server_key 8 "alpha") =
    [Some 30; Some 30; Some 30; Some 30; Some 30] ∧
  ∃ lp',
    log_parser (resetlogparser Sample.live 7 None).2 = Some lp' ∧
    entries lp' (server_key 8 "alpha") =
      entries (Sample.parser Sample.patterns Sample.store)
        (server_key 8 "alpha").
Proof.
  split; [discriminate|].
  split; [reflexivity|].
  split; [vm_compute; reflexivity|].
  split; [vm_compute; reflexivity|].
  apply (reset_spares_other_guilds Sample.live 7 8 None "alpha"
           (Sample.parser Sample.patterns Sample.store)).
  - discriminate.
  - reflexivity.
Defined.

End ResetAlgebra.

(** * Properties of [test_regex] *)

Module TestRegexFacts.
Import TestRegex PatternLibrary.

Lemma first_hit_app (patterns more : items) line :
  first_hit (patterns ++ more)%list line =
    match first_hit patterns line with
    | Some hit => Some hit
    | None => first_hit more line
    end.
Proof.
  induction patterns as [|[name p] patterns IH]; cbn; [done|].
  by destruct (p line).
Qed.

Lemma first_hit_none patterns line :
  first_hit patterns line = None ↔
  ∀ name p, (name, p) ∈ patterns → p line = None.
Proof.
  induction patterns as [|[name p] patterns IH]; cbn.
  - split; [|done]. intros _ n q Hin. by apply elem_of_nil in Hin.
  - destruct (p line) as [groups|] eqn:E.
    + split; [done|]. intros H. specialize (H name p (list_elem_of_here _ _)).
      congruence.
    + rewrite IH. split.
      * intros H n q [[= -> ->]|Hin]%elem_of_cons; eauto.
      * intros H n q Hin. apply (H n q). by apply list_elem_of_further.
Qed.

(** X17.  For each test line, [test_regex] reports the first pattern in
    dictionary order that matches it, with that match's groups, and skips
    all later patterns; it reports "No match" with the first 50 characters of
    the line exactly when no pattern of the dictionary matches. *)
Theorem test_line_first_in_order (patterns : items) (line : string) :
  (∀ name groups,
     test_line patterns line = Matched name groups ↔
     ∃ before p after,
       patterns = (before ++ (name, p) :: after)%list ∧
       p line = Some groups ∧
       ∀ name' p', (name', p') ∈ before → p' line = None) ∧
  (∀ shown,
     test_line patterns line = NoMatch shown ↔
     shown = take_chars 50 line ∧
     ∀ name p, (name, p) ∈ patterns → p line = None).
Proof.
  unfold test_line. split.
  - intros name groups. split.
    + induction patterns as [|[n p] patterns IH]; cbn; [done|].
      destruct (p line) as [g|] eqn:E.
      * intros [= -> ->]. exists [], p, patterns. split; [done|].
        split; [done|]. intros n' p' Hin. by apply elem_of_nil in Hin.
      * intros H. destruct (IH H) as (before & q & after & -> & Hq & Hb).
        exists ((n, p) :: before), q, after. split; [done|]. split; [done|].
        intros n' p' [[= -> ->]|Hin]%elem_of_cons; eauto.
    + intros (before & p & after & -> & Hp & Hb).
      rewrite first_hit_app.
      rewrite (proj2 (first_hit_none before line) Hb). cbn. by rewrite Hp.
  - intros shown. rewrite <- first_hit_none.
    destruct (first_hit patterns line) as [[n g]|].
    + split; [done|]. by intros [_ ?].
    + split; [by intros [= <-]|by intros [-> _]].
Qed.

Lemma first_hit_validator_items log_patterns line :
  first_hit (validator_items log_patterns) line =
    match first_match log_patterns line with
    | Some r => (λ groups, (rule_name r, groups)) <$> matcher log_patterns r line
    | None => None
    end.
Proof.
  unfold validator_items, first_match, matches. cbn.
  repeat match goal with
         | |- context [match ?p ?l with _ => _ end] =>
             destruct (p l) eqn:?; cbn; try congruence
         end;
    repeat match goal with E : _ = _ |- _ => rewrite E end; done.
Qed.

(** X18.  When the dictionary [log_patterns] lists the six rules of the
    validator first and in the order of its [elif] chain, [test_regex] names
    for a line the rule under which [validatelogparser] classifies that line
    (once stripped), and falls through to the remaining patterns exactly when
    the validator finds no rule. *)
Theorem test_regex_agrees_with_validator (log_patterns : log_patterns_t)
    (more : items) (line : string) :
  strip line = line →
  match first_match log_patterns (strip line) with
  | Some r =>
      ∃ groups,
        matcher log_patterns r line = Some groups ∧
        test_line (validator_items log_patterns ++ more)%list line =
          Matched (rule_name r) groups
  | None =>
      test_line (validator_items log_patterns ++ more)%list line =
        test_line more line
  end.
Proof.
  intros ->. unfold test_line.
  rewrite first_hit_app, first_hit_validator_items.
  destruct (first_match log_patterns line) as [r|] eqn:Hr; [|done].
  destruct (ValidateFacts.first_match_matches _ _ _ Hr) as [groups Hg].
  exists groups. by rewrite Hg.
Qed.

Lemma test_regex_agrees_with_validator_witness :
  strip "queue PlayerA 1" = "queue PlayerA 1" ∧
  first_match Sample.overlapping (strip "queue PlayerA 1") = Some Queue_join ∧
  test_line (validator_items Sample.overlapping ++ [])%list "queue PlayerA 1" =
    Matched "queue_join" [Some "PlayerA"; Some "1"] ∧
  test_line
    [("player_joined", player_joined Sample.overlapping);
     ("queue_join", queue_join Sample.overlapping)] "queue PlayerA 1" =
    Matched "player_joined" [Some "PlayerA"].
Proof.
  pose proof (test_regex_agrees_with_validator Sample.overlapping []
                "queue PlayerA 1" eq_refl) as H.
  split; [reflexivity|].
  split; [reflexivity|].
  split; [|reflexivity].
  change (first_match Sample.overlapping (strip "queue PlayerA 1"))
    with (Some Queue_join) in H.
  destruct H as (groups & Hg & ->). f_equal.
  vm_compute in Hg. by injection Hg as <-.
Defined.

End TestRegexFacts.

(** * Properties of [debug_playercount] *)

Module DebugFacts.
Import DebugPlayercount Reset Observe Resets.

Section Counting.
Context {state : Type} `{EqDecision state}.
Implicit Types (counts : list (state * Z)) (s : state).

Lemma get_set_same counts s n : get_count (set_count counts s n) s = n.
Proof.
  induction counts as [|[s' n'] counts IH]; cbn.
  - by rewrite decide_True.
  - case_decide; cbn; [by rewrite decide_True|]. by rewrite decide_False.
Qed.

Lemma get_set_other counts s s' n :
  s' ≠ s → get_count (set_count counts s n) s' = get_count counts s'.
Proof.
  intros Hne. induction counts as [|[s0 n0] counts IH]; cbn.
  - by rewrite decide_False.
  - case_decide; cbn; subst.
    + by rewrite !decide_False.
    + case_decide; [done|]. apply IH.
Qed.

Lemma total_set counts s n :
  total (set_count counts s n) = total counts - get_count counts s + n.
Proof.
  unfold total.
  induction counts as [|[s' n'] counts IH]; cbn; [lia|].
  case_decide; cbn; [lia|]. rewrite IH. lia.
Qed.

Lemma keys_set counts s n :
  fst <$> set_count counts s n =
    if decide (s ∈ fst <$> counts) then fst <$> counts
    else ((fst <$> counts) ++ [s])%list.
Proof.
  induction counts as [|[s' n'] counts IH]; cbn.
  - by rewrite decide_False by apply not_elem_of_nil.
  - destruct (decide (s' = s)) as [->|Hs]; cbn.
    + by rewrite decide_True by apply list_elem_of_here.
    + rewrite IH. destruct (decide (s ∈ fst <$> counts)) as [Hin|Hin].
      * by rewrite decide_True by by apply list_elem_of_further.
      * rewrite decide_False; [done|].
        intros [E|E]%elem_of_cons; [by apply Hs|by apply Hin].
Qed.

Lemma count_fold players : ∀ counts,
  let after :=
    fold_left
      (λ state_counts (item : string * state),
         set_count state_counts item.2 (get_count state_counts item.2 + 1))
      players counts in
  (∀ s, get_count after s =
          get_count counts s
          + Z.of_nat (length (filter (λ item, item.2 = s) players))) ∧
  total after = total counts + Z.of_nat (length players) ∧
  (NoDup (fst <$> counts) → NoDup (fst <$> after)) ∧
  (∀ s, s ∈ fst <$> after → s ∈ fst <$> counts ∨ s ∈ snd <$> players).
Proof.
  induction players as [|[pid st] players IH]; intros counts; cbn -[total].
  - split; [intros s; lia|]. split; [lia|]. split; [done|].
    intros s Hs. by left.
  - destruct (IH (set_count counts st (get_count counts st + 1)))
      as (Hget & Htotal & Hnodup & Hkeys).
    cbn -[total] in Hget, Htotal, Hnodup, Hkeys.
    split; [|split; [|split]].
    + intros s. rewrite Hget.
      destruct (decide (st = s)) as [->|Hne].
      * rewrite get_set_same.
        change (length ((pid, s) :: ?l)) with (S (length l)).
        rewrite Nat2Z.inj_succ.
        match goal with
        | |- _ + 1 + Z.of_nat ?a = _ + Z.succ (Z.of_nat ?b) =>
            change b with a
        end. lia.
      * rewrite get_set_other by done. reflexivity.
    + rewrite Htotal, total_set. lia.
    + intros Hnd. apply Hnodup. rewrite keys_set. case_decide; [done|].
      apply NoDup_app. split; [done|]. split.
      * intros x Hx Hx'%list_elem_of_singleton. by subst.
      * apply NoDup_singleton.
    + intros s Hs. apply Hkeys in Hs as [Hs|Hs].
      * rewrite keys_set in Hs. case_decide; [by left|].
        apply elem_of_app in Hs as [Hs|Hs%list_elem_of_singleton];
          [by left|]. subst. right. apply list_elem_of_here.
      * right. by apply list_elem_of_further.
Qed.

Lemma get_count_elem counts s n :
  NoDup (fst <$> counts) → (s, n) ∈ counts → get_count counts s = n.
Proof.
  induction counts as [|[s' n'] counts IH]; cbn.
  - intros _ Hin. by apply elem_of_nil in Hin.
  - intros [Hnot Hnd]%NoDup_cons [[= -> ->]|Hin]%elem_of_cons.
    + by rewrite decide_True.
    + rewrite decide_False; [by apply IH|].
      intros ->. apply Hnot. apply list_elem_of_fmap. by exists (s, n).
Qed.

(** X19.  The breakdown of [debug_playercount] counts right: for every
    state, the count listed is the number of players of the table in that
    state; the counts add up to the number of players; a state is listed once,
    and only if some player is in it, so no listed count is below 1. *)
Theorem count_states_breakdown (players : list (string * state)) :
  (∀ s, get_count (count_states players) s =
          Z.of_nat (length (filter (λ item, item.2 = s) players))) ∧
  total (count_states players) = Z.of_nat (length players) ∧
  NoDup (fst <$> count_states players) ∧
  (∀ s n, (s, n) ∈ count_states players →
          1 ≤ n ∧ ∃ player_id, (player_id, s) ∈ players).
Proof.
  destruct (count_fold players []) as (Hget & Htotal & Hnodup & Hkeys).
  cbn -[total] in Hget, Htotal, Hnodup, Hkeys.
  fold (count_states players) in *. change (total []) with 0 in Htotal.
  specialize (Hnodup (NoDup_nil_2 (A:=state))).
  split; [intros s; rewrite Hget; lia|].
  split; [lia|]. split; [done|].
  intros s n Hin.
  assert (∃ player_id, (player_id, s) ∈ players) as [pid Hpid].
  { destruct (Hkeys s) as [Hk|Hk].
    - apply list_elem_of_fmap. by exists (s, n).
    - by apply elem_of_nil in Hk.
    - apply list_elem_of_fmap in Hk as ([pid s'] & -> & Hk). by exists pid. }
  split; [|by exists pid].
  rewrite <- (get_count_elem _ _ _ Hnodup Hin), Hget.
  assert ((pid, s) ∈ filter (λ item : string * state, item.2 = s) players)
    as Hf by by apply list_elem_of_filter.
  destruct (filter _ players); [by apply elem_of_nil in Hf|]. cbn. lia.
Qed.

End Counting.
End DebugFacts.
